(** * The removable-storage export pipeline of securedrop-export

    A shallow embedding of [securedrop_export/disk/cli.py] (class [CLI]):
    device discovery, encryption classification, unlock and mount through
    [udisksctl], the export writer and the teardown path.

    The Python methods talk to the outside world through [subprocess],
    [pexpect], [os.path.exists] and [time.sleep].  Every such interaction
    is an event of a small free monad [Prog]; exceptions are the [Raise]
    leaves of the same monad.  A program is run against an arbitrary
    environment (a state type together with a function that answers each
    event), and the run records the events issued with their answers. *)

From Stdlib Require Import String Ascii List Bool Arith ZArith Lia.
From Stdlib Require QArith.
Import ListNotations.
Local Open Scope list_scope.
Local Open Scope string_scope.

Set Implicit Arguments.

(** ** Python string operations used by the module *)

Module PyStr.

(** A [str] is represented by its UTF-8 encoding, one [ascii] for every
    byte, so that [bytes.decode("utf-8")] and [f"{...}"] leave the bytes
    as they are.  [strip] and [split] work on characters: a whitespace
    character of one, two or three bytes is taken as one character. *)

Definition nl : string := String (ascii_of_nat 10) EmptyString.
Definition cr : string := String (ascii_of_nat 13) EmptyString.
Definition tab : string := String (ascii_of_nat 9) EmptyString.

(** [c.isspace()] for a character of one byte: TAB, LF, VT, FF, CR, the
    four separators 0x1c-0x1f and SPACE. *)
Definition is_space (c : ascii) : bool :=
  let n := nat_of_ascii c in
  (((9 <=? n) && (n <=? 13)) || ((28 <=? n) && (n <=? 32)))%nat.

(** [c.isspace()] for the characters of two bytes: U+0085 (C2 85) and
    U+00A0 (C2 A0). *)
Definition is_space2 (a b : ascii) : bool :=
  let x := nat_of_ascii a in
  let y := nat_of_ascii b in
  ((x =? 194) && ((y =? 133) || (y =? 160)))%nat.

(** [c.isspace()] for the characters of three bytes: U+1680 (E1 9A 80),
    U+2000 to U+200A (E2 80 80 to E2 80 8A), U+2028, U+2029 and U+202F
    (E2 80 A8, A9 and AF), U+205F (E2 81 9F) and U+3000 (E3 80 80). *)
Definition is_space3 (a b c : ascii) : bool :=
  let x := nat_of_ascii a in
  let y := nat_of_ascii b in
  let z := nat_of_ascii c in
  (((x =? 225) && (y =? 154) && (z =? 128))
   || ((x =? 226) && (y =? 128)
       && (((128 <=? z) && (z <=? 138))
           || (z =? 168) || (z =? 169) || (z =? 175)))
   || ((x =? 226) && (y =? 129) && (z =? 159))
   || ((x =? 227) && (y =? 128) && (z =? 128)))%nat.

(** A string seen as [strip] and [split] see it: whitespace characters,
    kept with their bytes, and the bytes in between. *)
Inductive Char : Type :=
| Space (utf8 : string)
| Other (byte : ascii).

Fixpoint chars (s : string) : list Char :=
  match s with
  | EmptyString => []
  | String a s1 =>
      if is_space a then Space (String a EmptyString) :: chars s1
      else
        match s1 with
        | EmptyString => [Other a]
        | String b s2 =>
            if is_space2 a b then
              Space (String a (String b EmptyString)) :: chars s2
            else
              match s2 with
              | EmptyString => Other a :: chars s1
              | String c s3 =>
                  if is_space3 a b c then
                    Space (String a (String b (String c EmptyString)))
                    :: chars s3
                  else Other a :: chars s1
              end
        end
  end.

Definition bytes_of (c : Char) : string :=
  match c with
  | Space u => u
  | Other b => String b EmptyString
  end.

Fixpoint unchars (l : list Char) : string :=
  match l with
  | [] => EmptyString
  | c :: l' => bytes_of c ++ unchars l'
  end.

Fixpoint drop_spaces (l : list Char) : list Char :=
  match l with
  | Space _ :: l' => drop_spaces l'
  | _ => l
  end.

(** [s.strip()]: without the whitespace characters at either end. *)
Definition strip (s : string) : string :=
  unchars (rev (drop_spaces (rev (drop_spaces (chars s))))).

Fixpoint drop_prefix (p s : string) : option string :=
  match p, s with
  | EmptyString, _ => Some s
  | String a p', String b s' =>
      if Ascii.eqb a b then drop_prefix p' s' else None
  | String _ _, EmptyString => None
  end.

(** [s.removeprefix(p)] *)
Definition removeprefix (p s : string) : string :=
  match drop_prefix p s with
  | Some r => r
  | None => s
  end.

(** [s.split(sep)] for a one-character separator; never the empty list. *)
Fixpoint split_on (sep : ascii) (s : string) : list string :=
  match s with
  | EmptyString => [EmptyString]
  | String c s' =>
      if Ascii.eqb c sep then EmptyString :: split_on sep s'
      else match split_on sep s' with
           | h :: t => String c h :: t
           | [] => [String c EmptyString]
           end
  end.

(** The stretches of bytes between one whitespace character and the
    next, empty ones included. *)
Fixpoint fields (l : list Char) : list string :=
  match l with
  | [] => [EmptyString]
  | Space _ :: l' => EmptyString :: fields l'
  | Other b :: l' =>
      match fields l' with
      | h :: t => String b h :: t
      | [] => [String b EmptyString]
      end
  end.

(** Truthiness of a [str]. *)
Definition truthy (s : string) : bool :=
  match s with
  | EmptyString => false
  | _ => true
  end.

(** [s.split()]: split on runs of whitespace, no empty fields. *)
Definition split (s : string) : list string :=
  filter truthy (fields (chars s)).

(** [needle in hay] *)
Fixpoint contains (needle hay : string) : bool :=
  if String.prefix needle hay then true
  else match hay with
       | EmptyString => false
       | String _ hay' => contains needle hay'
       end.

Fixpoint endswith_slash (s : string) : bool :=
  match s with
  | EmptyString => false
  | String c EmptyString => Ascii.eqb c "/"%char
  | String _ s' => endswith_slash s'
  end.

(** [os.path.join(a, b)] of [posixpath]. *)
Definition os_path_join (a b : string) : string :=
  if String.prefix "/" b then b
  else match a with
       | EmptyString => b
       | _ => if endswith_slash a then a ++ b else a ++ "/" ++ b
       end.

End PyStr.

(** ** Data model *)

(** Modelled from the spec: the [Status] enumeration of
    [securedrop_export/disk/status.py], which [cli.py] imports; the
    members are the terminal outcomes listed for the export core. *)
Inductive Status : Type :=
| NO_DEVICE_DETECTED
| MULTI_DEVICE_DETECTED
| INVALID_DEVICE_DETECTED
| DEVICE_ERROR
| ERROR_UNLOCK_GENERIC
| ERROR_UNLOCK_LUKS
| ERROR_MOUNT
| ERROR_EXPORT
| ERROR_UNMOUNT_VOLUME_BUSY
| ERROR_EXPORT_CLEANUP
| SUCCESS.

(** Modelled from the spec: [EncryptionScheme] of
    [securedrop_export/disk/volume.py]. *)
Inductive EncryptionScheme : Type :=
| UNKNOWN
| LUKS
| VERACRYPT.

Definition EncryptionScheme_eqb (a b : EncryptionScheme) : bool :=
  match a, b with
  | UNKNOWN, UNKNOWN | LUKS, LUKS | VERACRYPT, VERACRYPT => true
  | _, _ => false
  end.

(** Modelled from the spec: [Volume] of [volume.py], a device path and an
    encryption scheme; the field names are those of the keyword arguments
    used in [cli.py]. *)
Record Volume : Type := mkVolume {
  device_name : string;
  encryption : EncryptionScheme
}.

(** Modelled from the spec: [MountedVolume] of [volume.py], a [Volume]
    extended with the unlocked device path and the mountpoint. *)
Record MountedVolume : Type := mkMountedVolume {
  mv_device_name : string;
  unlocked_name : string;
  mv_encryption : EncryptionScheme;
  mountpoint : string
}.

(** [Union[Volume, MountedVolume]] *)
Inductive AnyVolume : Type :=
| Bare (v : Volume)
| Mounted (mv : MountedVolume).

Definition any_device_name (v : AnyVolume) : string :=
  match v with
  | Bare v => device_name v
  | Mounted mv => mv_device_name mv
  end.

Definition any_encryption (v : AnyVolume) : EncryptionScheme :=
  match v with
  | Bare v => encryption v
  | Mounted mv => mv_encryption mv
  end.

(** [vol.encryption in (EncryptionScheme.LUKS, EncryptionScheme.VERACRYPT)] *)
Definition supported_scheme (e : EncryptionScheme) : bool :=
  EncryptionScheme_eqb e LUKS || EncryptionScheme_eqb e VERACRYPT.

(** One node of the [lsblk --output NAME,RO,TYPE,MOUNTPOINT,FSTYPE --json]
    tree, as [json.loads] hands it to the module.  [mountpoint] and
    [fstype] are JSON [null] or a string; [children] is [None] when the
    key is absent. *)
#[local] Set Warnings "-register-all".
Inductive Device : Type :=
  mkDevice (name : string) (ro : bool) (type : string)
           (mountpoint : option string) (fstype : option string)
           (children : option (list Device)).

Definition dev_name (d : Device) : string :=
  match d with mkDevice n _ _ _ _ _ => n end.
Definition dev_ro (d : Device) : bool :=
  match d with mkDevice _ r _ _ _ _ => r end.
Definition dev_type (d : Device) : string :=
  match d with mkDevice _ _ t _ _ _ => t end.
Definition dev_mountpoint (d : Device) : option string :=
  match d with mkDevice _ _ _ m _ _ => m end.
Definition dev_fstype (d : Device) : option string :=
  match d with mkDevice _ _ _ _ f _ => f end.
Definition dev_children (d : Device) : option (list Device) :=
  match d with mkDevice _ _ _ _ _ c => c end.

(** The top-level object of the [lsblk] output: [blockdevices] is [None]
    when the key is absent. *)
Record Lsblk : Type := mkLsblk {
  blockdevices : option (list Device)
}.

(** ** Exceptions and external events *)

(** The exceptions that the module raises or handles by name, and the
    [OSError] of a command that cannot be started.  The inputs are taken
    as the module expects them: what a command prints is UTF-8 text,
    [pexpect.spawn] starts its child, and what [json.loads] accepts of the
    [lsblk] output has the shape that [lsblk] prints.  The exceptions that
    Python raises when one of these does not hold ([UnicodeDecodeError],
    that of [pexpect], [AttributeError]) pass through the module unhandled
    and are not part of the model. *)
Inductive Exn : Type :=
| CalledProcessError
| OSError
| JSONDecodeError
| ExportException (sdstatus : Status).

(** What [subprocess.check_call] / [check_output] can do: finish with exit
    status 0, finish with another exit status ([CalledProcessError]), or
    fail to start the program ([OSError]). *)
Inductive ProcResult (A : Type) : Type :=
| Completed (a : A)
| NonZeroExit
| CannotExecute.

Arguments NonZeroExit {A}.
Arguments CannotExecute {A}.

(** An entry of a [pexpect] pattern list. *)
Inductive Pat : Type :=
| Re (pattern : string)
| EOF
| TIMEOUT.

(** The answer of [child.expect]: the index of the entry that matched and
    the groups of [child.match], as the text that [decode] makes of
    them. *)
Record Matched : Type := mkMatched {
  index : nat;
  groups : list string
}.

(** [child.match.group(i)] for [i >= 1] *)
Definition group (i : nat) (m : Matched) : string :=
  nth (i - 1) (groups m) EmptyString.

Inductive Event : Type -> Type :=
| check_output_ev (argv : list string) : Event (ProcResult string)
| check_call_ev (argv : list string) : Event (ProcResult unit)
| path_exists_ev (path : string) : Event bool
| spawn_ev (command : string) : Event unit
| expect_ev (patterns : list Pat) : Event Matched
| sendline_ev (s : string) : Event unit
| close_ev : Event unit
| sleep_ev (seconds : QArith_base.Q) : Event unit.

(** ** The program monad *)

Inductive Prog (A : Type) : Type :=
| Ret (a : A)
| Raise (e : Exn)
| Vis (R : Type) (ev : Event R) (k : R -> Prog A).

Arguments Ret {A} a.
Arguments Raise {A} e.
Arguments Vis {A R} ev k.

Fixpoint bind {A B : Type} (p : Prog A) (f : A -> Prog B) : Prog B :=
  match p with
  | Ret a => f a
  | Raise e => Raise e
  | Vis ev k => Vis ev (fun r => bind (k r) f)
  end.

Declare Scope prog_scope.
Delimit Scope prog_scope with prog.
Notation "x <- p ;; q" := (bind p (fun x => q))
  (at level 61, p at next level, right associativity) : prog_scope.
Notation "p ;; q" := (bind p (fun _ => q))
  (at level 61, right associativity) : prog_scope.
Local Open Scope prog_scope.

(** [try: p  except <the exceptions h answers>: h e] *)
Fixpoint try_except {A : Type} (p : Prog A) (h : Exn -> option (Prog A))
  : Prog A :=
  match p with
  | Ret a => Ret a
  | Raise e => match h e with
               | Some q => q
               | None => Raise e
               end
  | Vis ev k => Vis ev (fun r => try_except (k r) h)
  end.

(** Runs [p] and hands back how it ended, for a [try] whose [except] and
    [finally] clauses share local variables. *)
Fixpoint attempt {A : Type} (p : Prog A) : Prog (Exn + A) :=
  match p with
  | Ret a => Ret (inr a)
  | Raise e => Ret (inl e)
  | Vis ev k => Vis ev (fun r => attempt (k r))
  end.

Definition trigger {R : Type} (ev : Event R) : Prog R := Vis ev (fun r => Ret r).

Definition from_proc {A : Type} (r : ProcResult A) : Prog A :=
  match r with
  | Completed a => Ret a
  | NonZeroExit => Raise CalledProcessError
  | CannotExecute => Raise OSError
  end.

Definition check_output (argv : list string) : Prog string :=
  r <- trigger (check_output_ev argv) ;; from_proc r.
Definition check_call (argv : list string) : Prog unit :=
  r <- trigger (check_call_ev argv) ;; from_proc r.
Definition path_exists (path : string) : Prog bool :=
  trigger (path_exists_ev path).
(** [pexpect.spawn(command)], for a command that can be started. *)
Definition spawn (command : string) : Prog unit := trigger (spawn_ev command).
Definition expect (patterns : list Pat) : Prog Matched :=
  trigger (expect_ev patterns).
Definition sendline (s : string) : Prog unit := trigger (sendline_ev s).
Definition close : Prog unit := trigger close_ev.
Definition sleep (seconds : QArith_base.Q) : Prog unit :=
  trigger (sleep_ev seconds).

(** ** The [CLI] class *)

Import PyStr.

Definition _DEVMAPPER_PREFIX : string := "/dev/mapper/".
Definition _DEV_PREFIX : string := "/dev/".
Definition _UDISKS_PREFIX : string :=
  "MODEL                     REVISION  SERIAL               DEVICE" ++ nl ++
  "--------------------------------------------------------------------------" ++ nl.

(** [x in targets] for a list of strings *)
Definition str_in (x : string) (l : list string) : bool :=
  existsb (String.eqb x) l.

(** [device.get(key) == s] for a field that is [null] or a string *)
Definition opt_str_eqb (o : option string) (s : string) : bool :=
  match o with
  | Some x => String.eqb x s
  | None => false
  end.

(** [_is_it_veracrypt]: best-effort detection of unlocked VeraCrypt
    drives through [udisksctl info]. *)
Definition _is_it_veracrypt (volume : Volume) : Prog EncryptionScheme :=
  try_except
    (info <- check_output
               ["udisksctl"; "info"; "--block-device"; device_name volume] ;;
     if contains ("IdType:                     crypto_TCRYPT" ++ nl) info then
       Ret VERACRYPT
     else if contains ("IdType:                     crypto_LUKS" ++ nl) info then
       Ret LUKS
     else
       Ret UNKNOWN)
    (fun e => match e with
              | CalledProcessError => Some (Ret UNKNOWN)
              | _ => None
              end).

(** The [for _ in range(max_retries)] loop of [_mount_volume]: ask
    [udisksctl info] until it reports the device, sleeping half a second
    after every attempt that did not. *)
Fixpoint _mount_volume_poll (info : string) (expected_info : list Pat)
  (retries : nat) : Prog unit :=
  match retries with
  | O => Ret tt
  | S retries' =>
      spawn info ;;
      m <- expect expected_info ;;
      close ;;
      if negb (index m =? 0)%nat then
        sleep (QArith_base.Qmake 1%Z 2%positive) ;;
        _mount_volume_poll info expected_info retries'
      else
        Ret tt
  end.

Definition _mount_volume (volume : Volume) (full_unlocked_name : string)
  : Prog MountedVolume :=
  let info := "udisksctl info --block-device " ++ device_name volume in
  let expected_info :=
    [ Re ("PreferredDevice:[" ++ tab ++ "+]" ++ device_name volume);
      Re "Error looking up object for device";
      EOF;
      TIMEOUT ] in
  let max_retries := 3%nat in
  let mount := "udisksctl mount --block-device " ++ full_unlocked_name in
  let expected_mount :=
    [ Re "Mounted .* at (.*)";
      Re ("Error mounting .*: GDBus.Error:org.freedesktop.UDisks2.Error.AlreadyMounted: "
          ++ "Device (.*) is already mounted at `(.*)'.");
      Re "Error looking up object for device";
      EOF;
      TIMEOUT ] in
  _mount_volume_poll info expected_info max_retries ;;
  spawn mount ;;
  m <- expect expected_mount ;;
  let '(full_unlocked_name, mountpoint) :=
    if (index m =? 0)%nat then
      (full_unlocked_name, Some (strip (group 1 m)))
    else if (index m =? 1)%nat then
      (strip (group 1 m), Some (strip (group 2 m)))
    else
      (full_unlocked_name, None) in
  close ;;
  match mountpoint with
  | Some mp =>
      if truthy mp then
        Ret {| mv_device_name := device_name volume;
               unlocked_name := full_unlocked_name;
               mv_encryption := encryption volume;
               mountpoint := mp |}
      else Raise (ExportException ERROR_MOUNT)
  | None => Raise (ExportException ERROR_MOUNT)
  end.

(** The closing test of [_get_supported_volume]. *)
Definition supported_or_none (vol : Volume) : Prog (option AnyVolume) :=
  if supported_scheme (encryption vol) then Ret (Some (Bare vol))
  else Ret None.

Definition _get_supported_volume (device : Device)
  : Prog (option AnyVolume) :=
  let device_fstype := dev_fstype device in
  let vol := mkVolume (_DEV_PREFIX ++ dev_name device) UNKNOWN in
  let vol :=
    if opt_str_eqb device_fstype "crypto_LUKS"
    then mkVolume (device_name vol) LUKS else vol in
  match dev_children device with
  | Some (child0 :: rest) =>
      if negb (length (child0 :: rest) =? 1)%nat then Ret None
      else if negb (String.eqb (dev_type child0) "crypt") then Ret None
      else
        let mapped_name := _DEVMAPPER_PREFIX ++ dev_name child0 in
        scheme <- (if EncryptionScheme_eqb (encryption vol) UNKNOWN
                   then _is_it_veracrypt vol
                   else Ret (encryption vol)) ;;
        let vol := mkVolume (device_name vol) scheme in
        match dev_mountpoint child0 with
        | Some (String c mp) =>
            Ret (Some (Mounted
                   {| mv_device_name := device_name vol;
                      unlocked_name := mapped_name;
                      mv_encryption := encryption vol;
                      mountpoint := String c mp |}))
        | _ =>
            if supported_scheme (encryption vol) then
              mv <- _mount_volume vol mapped_name ;;
              Ret (Some (Mounted mv))
            else supported_or_none vol
        end
  | _ => supported_or_none vol
  end.

(** The device identifiers of [udisksctl status]: the last field of every
    non-blank row below the header. *)
Definition parse_targets (status_output : string) : list string :=
  let usbs :=
    split_on (ascii_of_nat 10)
             (strip (removeprefix _UDISKS_PREFIX status_output)) in
  fold_left
    (fun targets i =>
       let item := split (strip i) in
       if (0 <? length item)%nat then (targets ++ [last item EmptyString])%list
       else targets)
    usbs [].

(** Runs [f] on every element and keeps the truthy results, as the
    [for ...: item = f(x); if item: volumes.append(item)] loops do. *)
Fixpoint collect (f : Device -> Prog (option AnyVolume)) (l : list Device)
  (volumes : list AnyVolume) : Prog (list AnyVolume) :=
  match l with
  | [] => Ret volumes
  | x :: l' =>
      item <- f x ;;
      match item with
      | Some v => collect f l' (volumes ++ [v])%list
      | None => collect f l' volumes
      end
  end.

Fixpoint get_volume_scan (targets : list string) (devices : list Device)
  (volumes : list AnyVolume) : Prog (list AnyVolume) :=
  match devices with
  | [] => Ret volumes
  | device :: devices' =>
      if str_in (dev_name device) targets && negb (dev_ro device) then
        volumes' <-
          match dev_children device with
          | Some children => collect _get_supported_volume children volumes
          | None => collect _get_supported_volume [device] volumes
          end ;;
        get_volume_scan targets devices' volumes'
      else get_volume_scan targets devices' volumes
  end.

Section GetVolume.

(** [json.loads] applied to the [lsblk] output: [None] stands for
    [json.JSONDecodeError], and [Some] carries a document of the shape
    that [lsblk --json] prints. *)
Variable json_loads : string -> option Lsblk.

Definition get_volume : Prog AnyVolume :=
  try_except
    (out <- check_output ["udisksctl"; "status"] ;;
     let targets := parse_targets out in
     if (length targets =? 0)%nat then
       Raise (ExportException NO_DEVICE_DETECTED)
     else if (1 <? length targets)%nat then
       Raise (ExportException MULTI_DEVICE_DETECTED)
     else
       lsblk <- check_output
                  ["lsblk"; "--output"; "NAME,RO,TYPE,MOUNTPOINT,FSTYPE"; "--json"] ;;
       match json_loads lsblk with
       | None => Raise JSONDecodeError
       | Some lsblk_json =>
           match blockdevices lsblk_json with
           | None | Some [] => Raise (ExportException DEVICE_ERROR)
           | Some devices =>
               volumes <- get_volume_scan targets devices [] ;;
               match volumes with
               | [v] => Ret v
               | _ => Raise (ExportException INVALID_DEVICE_DETECTED)
               end
           end
       end)
    (fun e => match e with
              | JSONDecodeError => Some (Raise (ExportException DEVICE_ERROR))
              | CalledProcessError => Some (Raise (ExportException DEVICE_ERROR))
              | _ => None
              end).

End GetVolume.

Definition unlock_volume (volume : Volume) (encryption_key : string)
  : Prog MountedVolume :=
  let command := "udisksctl unlock --block-device " ++ device_name volume in
  let prompt := [ Re "Passphrase: "; EOF; TIMEOUT ] in
  let expected :=
    [ Re ("Unlocked " ++ device_name volume ++ " as (.*)[^" ++ cr ++ nl ++ "].");
      Re ("GDBus.Error:org.freedesktop.UDisks2.Error.Failed: Device "
          ++ device_name volume ++ " is already unlocked as (.*)[^"
          ++ cr ++ nl ++ "].");
      Re ("GDBus.Error:org.freedesktop.UDisks2.Error.Failed: Error "
          ++ "unlocking " ++ device_name volume
          ++ ": Failed to activate device: Incorrect passphrase");
      EOF;
      TIMEOUT ] in
  let unlock_error := ERROR_UNLOCK_GENERIC in
  spawn command ;;
  m <- expect prompt ;;
  if negb (index m =? 0)%nat then
    Raise (ExportException ERROR_UNLOCK_GENERIC)
  else
    sendline encryption_key ;;
    m <- expect expected ;;
    if (index m =? 0)%nat || (index m =? 1)%nat then
      let dm_name := strip (group 1 m) in
      (* the exit status of the child only decides a log line *)
      close ;;
      _mount_volume volume dm_name
    else
      let unlock_error :=
        if (index m =? 2)%nat then ERROR_UNLOCK_LUKS else unlock_error in
      close ;;
      Raise (ExportException unlock_error).

Definition _remove_temp_directory (tmpdir : string) : Prog unit :=
  try_except
    (check_call ["rm"; "-rf"; tmpdir])
    (fun e => match e with
              | CalledProcessError =>
                  Some (Raise (ExportException ERROR_EXPORT_CLEANUP))
              | _ => None
              end).

Definition _close_volume (mv : MountedVolume) : Prog Volume :=
  mounted <- path_exists (mountpoint mv) ;;
  (if mounted then
     try_except
       (check_call ["udisksctl"; "unmount"; "--block-device"; unlocked_name mv])
       (fun e => match e with
                 | CalledProcessError =>
                     Some (Raise (ExportException ERROR_UNMOUNT_VOLUME_BUSY))
                 | _ => None
                 end)
   else Ret tt) ;;
  mapped <- path_exists (unlocked_name mv) ;;
  (if mapped then
     try_except
       (check_call ["udisksctl"; "lock"; "--block-device"; mv_device_name mv])
       (fun e => match e with
                 | CalledProcessError =>
                     Some (Raise (ExportException ERROR_EXPORT_CLEANUP))
                 | _ => None
                 end)
   else Ret tt) ;;
  Ret {| device_name := _DEV_PREFIX ++ mv_device_name mv;
         encryption := mv_encryption mv |}.

Definition cleanup (volume : MountedVolume) (submission_tmpdir : string)
  (is_error : bool) (should_close_volume : bool) : Prog unit :=
  let error_status := if is_error then ERROR_EXPORT else ERROR_EXPORT_CLEANUP in
  try_except
    (check_call ["sync"] ;;
     _remove_temp_directory submission_tmpdir ;;
     if should_close_volume then
       _ <- _close_volume volume ;; Ret tt
     else Ret tt)
    (fun e => match e with
              | CalledProcessError => Some (Raise (ExportException error_status))
              | _ => None
              end).

(** The [try] block of [write_data_to_device]. *)
Definition write_data_to_device_body (device : MountedVolume)
  (submission_tmpdir submission_target_dirname : string) : Prog unit :=
  let target_path := os_path_join (mountpoint device) submission_target_dirname in
  check_call ["mkdir"; target_path] ;;
  let export_data := os_path_join submission_tmpdir "export_data/" in
  check_call ["cp"; "-r"; export_data; target_path].

(** What the [except (CalledProcessError, OSError)] clause of
    [write_data_to_device] leaves behind for a given end of the [try]
    block: the value of [is_error] and the exception still to be raised
    once the [finally] clause is through. *)
Definition write_data_to_device_except (r : Exn + unit) : bool * option Exn :=
  match r with
  | inr _ => (false, None)
  | inl CalledProcessError | inl OSError =>
      (true, Some (ExportException ERROR_EXPORT))
  | inl e => (false, Some e)
  end.

Definition write_data_to_device (device : MountedVolume)
  (submission_tmpdir submission_target_dirname : string) : Prog unit :=
  (* try: is_error = False; mkdir; cp *)
  r <- attempt (write_data_to_device_body device submission_tmpdir
                  submission_target_dirname) ;;
  (* except: is_error = True; raise ExportException(ERROR_EXPORT) *)
  let '(is_error, pending) := write_data_to_device_except r in
  (* finally: *)
  cleanup device submission_tmpdir is_error true ;;
  match pending with
  | Some e => Raise e
  | None => Ret tt
  end.

(** ** Running a program against an environment *)

(** An event together with the answer it received. *)
Inductive Occurrence : Type :=
| Occ (R : Type) (ev : Event R) (answer : R).

Arguments Occ {R} ev answer.

Definition Trace : Type := list Occurrence.

Record Outcome (A W : Type) : Type := mkOutcome {
  result : Exn + A;
  trace : Trace;
  final : W
}.

Section Run.

Variable W : Type.
Variable env : forall R : Type, Event R -> W -> R * W.

Fixpoint run {A : Type} (p : Prog A) (w : W) : Outcome A W :=
  match p with
  | Ret a => mkOutcome (inr a) [] w
  | Raise e => mkOutcome (inl e) [] w
  | Vis ev k =>
      let (r, w') := env ev w in
      match run (k r) w' with
      | mkOutcome res t w'' => mkOutcome res (Occ ev r :: t) w''
      end
  end.

End Run.

(** ** Observations on traces *)

Fixpoint argv_eqb (a b : list string) : bool :=
  match a, b with
  | [], [] => true
  | x :: a', y :: b' => String.eqb x y && argv_eqb a' b'
  | _, _ => false
  end.

(** The command lines handed to [subprocess.check_call], in order. *)
Fixpoint calls (t : Trace) : list (list string) :=
  match t with
  | [] => []
  | Occ ev _ :: t' =>
      match ev with
      | check_call_ev argv => argv :: calls t'
      | _ => calls t'
      end
  end.

(** The command lines handed to [subprocess.check_output], in order. *)
Fixpoint queries (t : Trace) : list (list string) :=
  match t with
  | [] => []
  | Occ ev _ :: t' =>
      match ev with
      | check_output_ev argv => argv :: queries t'
      | _ => queries t'
      end
  end.

Definition proc_failed {A : Type} (r : ProcResult A) : bool :=
  match r with
  | Completed _ => false
  | _ => true
  end.

Definition proc_nonzero {A : Type} (r : ProcResult A) : bool :=
  match r with
  | NonZeroExit => true
  | _ => false
  end.

(** [check_call argv] was issued and ended with a non-zero exit status. *)
Fixpoint call_nonzero (argv : list string) (t : Trace) : bool :=
  match t with
  | [] => false
  | Occ ev r :: t' =>
      (match ev in Event R return R -> bool with
       | check_call_ev a => fun r => argv_eqb a argv && proc_nonzero r
       | _ => fun _ => false
       end r) || call_nonzero argv t'
  end.

(** [check_call argv] was issued and did not complete. *)
Fixpoint call_failed (argv : list string) (t : Trace) : bool :=
  match t with
  | [] => false
  | Occ ev r :: t' =>
      (match ev in Event R return R -> bool with
       | check_call_ev a => fun r => argv_eqb a argv && proc_failed r
       | _ => fun _ => false
       end r) || call_failed argv t'
  end.

Definition called (argv : list string) (t : Trace) : bool :=
  existsb (argv_eqb argv) (calls t).

(** The answers of [os.path.exists], in order. *)
Fixpoint path_answers (t : Trace) : list (string * bool) :=
  match t with
  | [] => []
  | Occ ev r :: t' =>
      match ev in Event R return R -> list (string * bool) with
      | path_exists_ev p => fun b => (p, b) :: path_answers t'
      | _ => fun _ => path_answers t'
      end r
  end.

(** The commands given to [pexpect.spawn], in order. *)
Fixpoint spawned (t : Trace) : list string :=
  match t with
  | [] => []
  | Occ ev _ :: t' =>
      match ev with
      | spawn_ev c => c :: spawned t'
      | _ => spawned t'
      end
  end.

(** The answers of [child.expect], in order. *)
Fixpoint matches (t : Trace) : list Matched :=
  match t with
  | [] => []
  | Occ ev r :: t' =>
      match ev in Event R return R -> list Matched with
      | expect_ev _ => fun m => m :: matches t'
      | _ => fun _ => matches t'
      end r
  end.

(** The durations given to [time.sleep], in order. *)
Fixpoint sleeps (t : Trace) : list QArith_base.Q :=
  match t with
  | [] => []
  | Occ ev _ :: t' =>
      match ev with
      | sleep_ev q => q :: sleeps t'
      | _ => sleeps t'
      end
  end.

Definition count_spawned (command : string) (t : Trace) : nat :=
  length (filter (String.eqb command) (spawned t)).

Definition sync_argv : list string := ["sync"].
Definition rm_argv (tmpdir : string) : list string := ["rm"; "-rf"; tmpdir].
Definition unmount_argv (mv : MountedVolume) : list string :=
  ["udisksctl"; "unmount"; "--block-device"; unlocked_name mv].
Definition lock_argv (mv : MountedVolume) : list string :=
  ["udisksctl"; "lock"; "--block-device"; mv_device_name mv].

(** ** Concrete environments *)

(** A stateless environment except for a counter of the events answered
    so far, which the answers may depend on. *)
Record Script : Type := mkScript {
  on_check_output : nat -> list string -> ProcResult string;
  on_check_call : nat -> list string -> ProcResult unit;
  on_path_exists : nat -> string -> bool;
  on_expect : nat -> list Pat -> Matched
}.

Definition scripted (s : Script) (R : Type) (ev : Event R) (n : nat)
  : R * nat :=
  match ev in Event R return R * nat with
  | check_output_ev argv => (on_check_output s n argv, S n)
  | check_call_ev argv => (on_check_call s n argv, S n)
  | path_exists_ev p => (on_path_exists s n p, S n)
  | spawn_ev _ => (tt, S n)
  | expect_ev pats => (on_expect s n pats, S n)
  | sendline_ev _ => (tt, S n)
  | close_ev => (tt, S n)
  | sleep_ev _ => (tt, S n)
  end.

(** Everything succeeds, every path exists, every [expect] matches its
    first pattern and captures the given groups. *)
Definition all_fine (gs : list string) : Script :=
  {| on_check_output := fun _ _ => Completed EmptyString;
     on_check_call := fun _ _ => Completed tt;
     on_path_exists := fun _ _ => true;
     on_expect := fun _ _ => mkMatched 0 gs |}.

Definition second_is (word : string) (argv : list string) : bool :=
  match argv with
  | _ :: w :: _ => String.eqb w word
  | _ => false
  end.

Definition first_is (word : string) (argv : list string) : bool :=
  match argv with
  | w :: _ => String.eqb w word
  | _ => false
  end.

(** As [all_fine], but [udisksctl unmount] exits with a non-zero status. *)
Definition unmount_busy : Script :=
  {| on_check_output := fun _ _ => Completed EmptyString;
     on_check_call := fun _ argv =>
       if second_is "unmount" argv then NonZeroExit else Completed tt;
     on_path_exists := fun _ _ => true;
     on_expect := fun _ _ => mkMatched 0 [] |}.

(** As [all_fine], but [rm -rf] exits with a non-zero status. *)
Definition rm_fails : Script :=
  {| on_check_output := fun _ _ => Completed EmptyString;
     on_check_call := fun _ argv =>
       if first_is "rm" argv then NonZeroExit else Completed tt;
     on_path_exists := fun _ _ => true;
     on_expect := fun _ _ => mkMatched 0 [] |}.

(** [mkdir] exits with a non-zero status, and so does [udisksctl unmount]. *)
Definition mkdir_fails_unmount_busy : Script :=
  {| on_check_output := fun _ _ => Completed EmptyString;
     on_check_call := fun _ argv =>
       if first_is "mkdir" argv || second_is "unmount" argv
       then NonZeroExit else Completed tt;
     on_path_exists := fun _ _ => true;
     on_expect := fun _ _ => mkMatched 0 [] |}.

Definition sample_mv : MountedVolume :=
  {| mv_device_name := "/dev/sda1";
     unlocked_name := "/dev/mapper/luks-1234";
     mv_encryption := LUKS;
     mountpoint := "/media/user/USB" |}.

Definition mkdir_argv (device : MountedVolume) (target_dirname : string)
  : list string :=
  ["mkdir"; os_path_join (mountpoint device) target_dirname].
Definition cp_argv (device : MountedVolume) (tmpdir target_dirname : string)
  : list string :=
  ["cp"; "-r"; os_path_join tmpdir "export_data/";
   os_path_join (mountpoint device) target_dirname].

(** How often [check_call argv] was issued. *)
Definition count_calls (argv : list string) (t : Trace) : nat :=
  length (filter (argv_eqb argv) (calls t)).

Definition raised {A : Type} (r : Exn + A) : bool :=
  match r with
  | inl _ => true
  | inr _ => false
  end.

(** The answers of [subprocess.check_output], in order. *)
Fixpoint query_answers (t : Trace) : list (list string * ProcResult string) :=
  match t with
  | [] => []
  | Occ ev r :: t' =>
      match ev in Event R return R -> list (list string * ProcResult string) with
      | check_output_ev argv => fun r => (argv, r) :: query_answers t'
      | _ => fun _ => query_answers t'
      end r
  end.

(** Some [check_output] ended with a non-zero exit status. *)
Definition query_nonzero (t : Trace) : bool :=
  existsb (fun qa => proc_nonzero (snd qa)) (query_answers t).

Definition status_argv : list string := ["udisksctl"; "status"].
Definition lsblk_argv : list string :=
  ["lsblk"; "--output"; "NAME,RO,TYPE,MOUNTPOINT,FSTYPE"; "--json"].
Definition info_argv (volume : Volume) : list string :=
  ["udisksctl"; "info"; "--block-device"; device_name volume].

(** One attached drive, [sda], in the table of [udisksctl status]. *)
Definition status_one_drive : string :=
  _UDISKS_PREFIX
  ++ "ADATA USB Flash Drive     1100      2761505420110004     sda     " ++ nl.

Definition status_two_drives : string :=
  status_one_drive
  ++ "Kingston DataTraveler 3.0 PMAP      60A44C413C4AE3A0     sdb     " ++ nl.

(** [sda] with one partition whose unlocked mapping [tcrypt-2049] is
    mounted; the partition carries no filesystem signature. *)
Definition tree_unlocked_mounted : Lsblk :=
  {| blockdevices :=
       Some [ mkDevice "sda" false "disk" None None
                (Some [ mkDevice "sda1" false "part" None None
                          (Some [ mkDevice "tcrypt-2049" false "crypt"
                                    (Some "/media/user/USB") (Some "vfat")
                                    None ]) ]) ] |}.

(** One drive; [udisksctl info] answers without any [IdType] marker. *)
Definition one_drive_no_idtype : Script :=
  {| on_check_output := fun _ argv =>
       if second_is "status" argv then Completed status_one_drive
       else if first_is "lsblk" argv then Completed "{ }"
       else Completed ("    IdType:                     " ++ nl);
     on_check_call := fun _ _ => Completed tt;
     on_path_exists := fun _ _ => true;
     on_expect := fun _ _ => mkMatched 0 [] |}.

(** One drive; [udisksctl info] exits with a non-zero status. *)
Definition one_drive_info_fails : Script :=
  {| on_check_output := fun _ argv =>
       if second_is "status" argv then Completed status_one_drive
       else if first_is "lsblk" argv then Completed "{ }"
       else NonZeroExit;
     on_check_call := fun _ _ => Completed tt;
     on_path_exists := fun _ _ => true;
     on_expect := fun _ _ => mkMatched 0 [] |}.

(** [udisksctl status] prints the given table. *)
Definition status_prints (table : string) : Script :=
  {| on_check_output := fun _ _ => Completed table;
     on_check_call := fun _ _ => Completed tt;
     on_path_exists := fun _ _ => true;
     on_expect := fun _ _ => mkMatched 0 [] |}.

(** A locked LUKS partition: the signature is in [fstype], and there is
    no child. *)
Definition luks_locked_partition : Device :=
  mkDevice "sda1" false "part" None (Some "crypto_LUKS") None.

(** A partition without signature whose unlocked mapping is mounted. *)
Definition unlocked_mounted_partition : Device :=
  mkDevice "sda1" false "part" None None
    (Some [ mkDevice "tcrypt-2049" false "crypt"
              (Some "/media/user/USB") (Some "vfat") None ]).

(** The pattern lists given to [child.expect] with the answers, in order. *)
Fixpoint expectations (t : Trace) : list (list Pat * Matched) :=
  match t with
  | [] => []
  | Occ ev r :: t' =>
      match ev in Event R return R -> list (list Pat * Matched) with
      | expect_ev pats => fun m => (pats, m) :: expectations t'
      | _ => fun _ => expectations t'
      end r
  end.

(** The entry of the pattern list that an answer of [expect] designates. *)
Definition matched_pat (e : list Pat * Matched) : option Pat :=
  nth_error (fst e) (index (snd e)).

Definition prompt_pattern : string := "Passphrase: ".
Definition unlocked_pattern (volume : Volume) : string :=
  "Unlocked " ++ device_name volume ++ " as (.*)[^" ++ cr ++ nl ++ "].".
Definition already_unlocked_pattern (volume : Volume) : string :=
  "GDBus.Error:org.freedesktop.UDisks2.Error.Failed: Device "
  ++ device_name volume ++ " is already unlocked as (.*)[^" ++ cr ++ nl ++ "].".
Definition incorrect_passphrase_pattern (volume : Volume) : string :=
  "GDBus.Error:org.freedesktop.UDisks2.Error.Failed: Error unlocking "
  ++ device_name volume ++ ": Failed to activate device: Incorrect passphrase".

Definition sample_volume : Volume := mkVolume "/dev/sda1" LUKS.

(** The passphrase prompt appears; every later [expect] matches the entry
    at position [i] of its list. *)
Definition prompt_then (i : nat) (gs : list string) : Script :=
  {| on_check_output := fun _ _ => Completed EmptyString;
     on_check_call := fun _ _ => Completed tt;
     on_path_exists := fun _ _ => true;
     on_expect := fun _ pats =>
       if (length pats =? 3)%nat then mkMatched 0 [] else mkMatched i gs |}.

(** The child ends, or stays silent, before any passphrase prompt. *)
Definition no_prompt (i : nat) : Script :=
  {| on_check_output := fun _ _ => Completed EmptyString;
     on_check_call := fun _ _ => Completed tt;
     on_path_exists := fun _ _ => true;
     on_expect := fun _ _ => mkMatched i [] |}.

(** The kind of every event of a trace, with what matters of its answer. *)
Inductive Step : Type :=
| Queried (argv : list string)
| Called (argv : list string)
| Tested (path : string)
| Spawned (command : string)
| Expected (i : nat)
| Sent (s : string)
| Closed
| Slept (seconds : QArith_base.Q).

Fixpoint steps (t : Trace) : list Step :=
  match t with
  | [] => []
  | Occ ev r :: t' =>
      match ev in Event R return R -> Step with
      | check_output_ev argv => fun _ => Queried argv
      | check_call_ev argv => fun _ => Called argv
      | path_exists_ev p => fun _ => Tested p
      | spawn_ev c => fun _ => Spawned c
      | expect_ev _ => fun m => Expected (index m)
      | sendline_ev s => fun _ => Sent s
      | close_ev => fun _ => Closed
      | sleep_ev q => fun _ => Slept q
      end r :: steps t'
  end.

Definition no_match : Matched := mkMatched 0 [].

Definition info_command (volume : Volume) : string :=
  "udisksctl info --block-device " ++ device_name volume.
Definition mount_command (unlocked : string) : string :=
  "udisksctl mount --block-device " ++ unlocked.
Definition unlock_command (volume : Volume) : string :=
  "udisksctl unlock --block-device " ++ device_name volume.

(** One round of the readiness poll as it shows in a trace: the info
    command is spawned, answered and closed, and half a second is slept
    when the answer was not the preferred-device line. *)
Definition poll_round (volume : Volume) (m : Matched) : list Step :=
  ([Spawned (info_command volume); Expected (index m); Closed]
   ++ (if (index m =? 0)%nat then []
       else [Slept (QArith_base.Qmake 1%Z 2%positive)]))%list.

(** [udisksctl info] is ready at the attempt numbered [ready] (counting the
    events of the run); the mount command matches entry [i]. *)
Definition ready_at (ready : nat) (i : nat) (gs : list string) : Script :=
  {| on_check_output := fun _ _ => Completed EmptyString;
     on_check_call := fun _ _ => Completed tt;
     on_path_exists := fun _ _ => true;
     on_expect := fun n pats =>
       if (length pats =? 4)%nat then
         (if (ready <=? n)%nat then mkMatched 0 [] else mkMatched 1 [])
       else mkMatched i gs |}.

(** A small [udisks] daemon holding one encrypted device, to run the
    unlock and mount protocol against.  The device is unlocked by
    [ud_passphrase] as [ud_mapper] and mounted at [ud_media]. *)
Inductive Child : Type :=
| NoChild
| UnlockChild
| InfoChild
| MountChild.

Record Udisks : Type := mkUdisks {
  ud_passphrase : string;
  ud_mapper : string;
  ud_media : string;
  ud_unlocked : bool;
  ud_mounted : bool;
  ud_child : Child;
  ud_sent : option string
}.

Definition classify (command : string) : Child :=
  if String.prefix "udisksctl unlock " command then UnlockChild
  else if String.prefix "udisksctl info " command then InfoChild
  else if String.prefix "udisksctl mount " command then MountChild
  else NoChild.

Definition udisks_expect (pats : list Pat) (s : Udisks) : Matched * Udisks :=
  match ud_child s with
  | UnlockChild =>
      match ud_sent s with
      | None => (mkMatched 0 [], s)
      | Some key =>
          if ud_unlocked s then (mkMatched 1 [ud_mapper s], s)
          else if String.eqb key (ud_passphrase s) then
            (mkMatched 0 [ud_mapper s],
             mkUdisks (ud_passphrase s) (ud_mapper s) (ud_media s)
                      true (ud_mounted s) (ud_child s) (ud_sent s))
          else (mkMatched 2 [], s)
      end
  | InfoChild => (mkMatched 0 [], s)
  | MountChild =>
      if ud_mounted s then (mkMatched 1 [ud_mapper s; ud_media s], s)
      else if ud_unlocked s then
        (mkMatched 0 [ud_media s],
         mkUdisks (ud_passphrase s) (ud_mapper s) (ud_media s)
                  (ud_unlocked s) true (ud_child s) (ud_sent s))
      else (mkMatched 2 [], s)
  | NoChild => (mkMatched (length pats - 1) [], s)
  end.

Definition udisks (R : Type) (ev : Event R) (s : Udisks) : R * Udisks :=
  match ev in Event R return R * Udisks with
  | check_output_ev _ => (Completed EmptyString, s)
  | check_call_ev _ => (Completed tt, s)
  | path_exists_ev _ => (true, s)
  | spawn_ev c =>
      (tt, mkUdisks (ud_passphrase s) (ud_mapper s) (ud_media s)
                    (ud_unlocked s) (ud_mounted s) (classify c) None)
  | expect_ev pats => udisks_expect pats s
  | sendline_ev key =>
      (tt, mkUdisks (ud_passphrase s) (ud_mapper s) (ud_media s)
                    (ud_unlocked s) (ud_mounted s) (ud_child s) (Some key))
  | close_ev =>
      (tt, mkUdisks (ud_passphrase s) (ud_mapper s) (ud_media s)
                    (ud_unlocked s) (ud_mounted s) NoChild (ud_sent s))
  | sleep_ev _ => (tt, s)
  end.

(** The device locked, nothing mounted. *)
Definition udisks_locked : Udisks :=
  mkUdisks "correct" "/dev/dm-0" "/media/user/USB" false false NoChild None.

(** ** Further observations and environments *)

(** Some [check_call] of the trace did not complete. *)
Fixpoint any_call_failed (t : Trace) : bool :=
  match t with
  | [] => false
  | Occ ev r :: t' =>
      (match ev in Event R return R -> bool with
       | check_call_ev _ => fun r => proc_failed r
       | _ => fun _ => false
       end r) || any_call_failed t'
  end.

(** The strings given to [child.sendline], in order. *)
Fixpoint sent_lines (t : Trace) : list string :=
  match t with
  | [] => []
  | Occ ev _ :: t' =>
      match ev with
      | sendline_ev s => s :: sent_lines t'
      | _ => sent_lines t'
      end
  end.

(** How many children were closed. *)
Fixpoint closed (t : Trace) : nat :=
  match t with
  | [] => 0
  | Occ ev _ :: t' =>
      match ev with
      | close_ev => S (closed t')
      | _ => closed t'
      end
  end.

(** [sync] exits with a non-zero status. *)
Definition sync_fails : Script :=
  {| on_check_output := fun _ _ => Completed EmptyString;
     on_check_call := fun _ argv =>
       if first_is "sync" argv then NonZeroExit else Completed tt;
     on_path_exists := fun _ _ => true;
     on_expect := fun _ _ => mkMatched 0 [] |}.

(** [udisksctl lock] exits with a non-zero status. *)
Definition lock_fails : Script :=
  {| on_check_output := fun _ _ => Completed EmptyString;
     on_check_call := fun _ argv =>
       if second_is "lock" argv then NonZeroExit else Completed tt;
     on_path_exists := fun _ _ => true;
     on_expect := fun _ _ => mkMatched 0 [] |}.

(** Every command succeeds, but no path exists any more. *)
Definition nothing_exists : Script :=
  {| on_check_output := fun _ _ => Completed EmptyString;
     on_check_call := fun _ _ => Completed tt;
     on_path_exists := fun _ _ => false;
     on_expect := fun _ _ => mkMatched 0 [] |}.

(** [mkdir] exits with a non-zero status; everything else succeeds. *)
Definition mkdir_fails : Script :=
  {| on_check_output := fun _ _ => Completed EmptyString;
     on_check_call := fun _ argv =>
       if first_is "mkdir" argv then NonZeroExit else Completed tt;
     on_path_exists := fun _ _ => true;
     on_expect := fun _ _ => mkMatched 0 [] |}.

(** A whitespace character occurs in the string. *)
Definition has_space (s : string) : bool :=
  existsb (fun c => match c with
                    | Space _ => true
                    | Other _ => false
                    end) (chars s).

(** [udisksctl status] prints [table]; [lsblk] prints [listing]. *)
Definition status_and_lsblk (table : ProcResult string)
  (listing : ProcResult string) : Script :=
  {| on_check_output := fun _ argv =>
       if first_is "lsblk" argv then listing else table;
     on_check_call := fun _ _ => Completed tt;
     on_path_exists := fun _ _ => true;
     on_expect := fun _ _ => mkMatched 0 [] |}.

(** [sda], read-only, carrying one locked LUKS partition. *)
Definition tree_read_only : Lsblk :=
  {| blockdevices :=
       Some [ mkDevice "sda" true "disk" None None
                (Some [ mkDevice "sda1" true "part" None
                          (Some "crypto_LUKS") None ]) ] |}.

(** [sda] with a plain partition and one locked LUKS partition. *)
Definition tree_one_luks : Lsblk :=
  {| blockdevices :=
       Some [ mkDevice "sda" false "disk" None None
                (Some [ mkDevice "sda1" false "part" None (Some "vfat") None;
                        mkDevice "sda2" false "part" None
                          (Some "crypto_LUKS") None ]) ] |}.

(** [sda] with two locked LUKS partitions. *)
Definition tree_two_luks : Lsblk :=
  {| blockdevices :=
       Some [ mkDevice "sda" false "disk" None None
                (Some [ mkDevice "sda1" false "part" None
                          (Some "crypto_LUKS") None;
                        mkDevice "sda2" false "part" None
                          (Some "crypto_LUKS") None ]) ] |}.

(** A partition whose unlocked mapping is not mounted. *)
Definition unlocked_unmounted_partition : Device :=
  mkDevice "sda1" false "part" None None
    (Some [ mkDevice "tcrypt-2049" false "crypt" None (Some "vfat") None ]).

(** A partition split once more below it. *)
Definition nested_partition : Device :=
  mkDevice "sda1" false "part" None (Some "crypto_LUKS")
    (Some [ mkDevice "a" false "crypt" None None None;
            mkDevice "b" false "crypt" None None None ]).

(** Whether a node has no children to look at. *)
Definition childless (d : Device) : bool :=
  match dev_children d with
  | None | Some [] => true
  | Some (_ :: _) => false
  end.

(** The volume that a childless node stands for: a LUKS volume when its
    filesystem type is the LUKS signature, and none otherwise. *)
Definition locked_volume (d : Device) : option AnyVolume :=
  if opt_str_eqb (dev_fstype d) "crypto_LUKS"
  then Some (Bare (mkVolume (_DEV_PREFIX ++ dev_name d) LUKS))
  else None.

Fixpoint locked_volumes (l : list Device) : list AnyVolume :=
  match l with
  | [] => []
  | d :: l' =>
      match locked_volume d with
      | Some v => v :: locked_volumes l'
      | None => locked_volumes l'
      end
  end.

(** The nodes of a drive that [get_volume] hands to
    [_get_supported_volume]: its partitions, or the drive itself when it
    has no [children] key. *)
Definition candidates (device : Device) : list Device :=
  match dev_children device with
  | Some children => children
  | None => [device]
  end.

(** A LUKS partition whose unlocked mapping is mounted. *)
Definition luks_unlocked_mounted_partition : Device :=
  mkDevice "sda1" false "part" None (Some "crypto_LUKS")
    (Some [ mkDevice "luks-1234" false "crypt"
              (Some "/media/user/USB") (Some "ext4") None ]).

(** The entries of the two pattern lists of [_mount_volume]. *)
Definition preferred_device_pattern (volume : Volume) : string :=
  "PreferredDevice:[" ++ tab ++ "+]" ++ device_name volume.
Definition lookup_error_pattern : string :=
  "Error looking up object for device".
Definition mounted_pattern : string := "Mounted .* at (.*)".
Definition already_mounted_pattern : string :=
  "Error mounting .*: GDBus.Error:org.freedesktop.UDisks2.Error.AlreadyMounted: "
  ++ "Device (.*) is already mounted at `(.*)'.".

(** The pattern list of the readiness poll and that of the mount
    command. *)
Definition expected_info (volume : Volume) : list Pat :=
  [ Re (preferred_device_pattern volume); Re lookup_error_pattern;
    EOF; TIMEOUT ].
Definition expected_mount : list Pat :=
  [ Re mounted_pattern; Re already_mounted_pattern; Re lookup_error_pattern;
    EOF; TIMEOUT ].

(** [mkdir] exits with a non-zero status, and so does [sync]. *)
Definition mkdir_fails_sync_fails : Script :=
  {| on_check_output := fun _ _ => Completed EmptyString;
     on_check_call := fun _ argv =>
       if first_is "mkdir" argv || first_is "sync" argv
       then NonZeroExit else Completed tt;
     on_path_exists := fun _ _ => true;
     on_expect := fun _ _ => mkMatched 0 [] |}.

(** U+00A0, the no-break space, in UTF-8. *)
Definition nbsp : string :=
  String (ascii_of_nat 194) (String (ascii_of_nat 160) EmptyString).

(** As [status_one_drive], with a no-break space after the identifier. *)
Definition status_one_drive_nbsp : string :=
  _UDISKS_PREFIX
  ++ "ADATA USB Flash Drive     1100      2761505420110004     sda"
  ++ nbsp ++ nl.
Example strip_example :
  PyStr.strip ("  /dev/dm-0." ++ PyStr.cr ++ PyStr.nl) = "/dev/dm-0.".
Proof. reflexivity. Qed.

Example split_example :
  PyStr.split "ADATA USB Flash Drive   1100   2761505420110004   sda"
  = ["ADATA"; "USB"; "Flash"; "Drive"; "1100"; "2761505420110004"; "sda"].
Proof. reflexivity. Qed.

Example split_on_example :
  PyStr.split_on (ascii_of_nat 10) ("a" ++ PyStr.nl ++ PyStr.nl ++ "b")
  = ["a"; ""; "b"].
Proof. reflexivity. Qed.

Example join_example :
  PyStr.os_path_join "/media/usb" "sd-export" = "/media/usb/sd-export"
  /\ PyStr.os_path_join "/tmp/x" "export_data/" = "/tmp/x/export_data/"
  /\ PyStr.os_path_join "/media/usb" "/etc" = "/etc".
Proof. repeat split. Qed.

(** * Properties *)

Lemma argv_eqb_refl (a : list string) : argv_eqb a a = true.
Proof.
  induction a as [|x a IH]; simpl; [reflexivity|].
  now rewrite String.eqb_refl.
Qed.

(** Answers the next event of a run by case analysis on what the
    environment returns. *)
Ltac answer env :=
  match goal with
  | |- context [env ?R ?ev ?w] =>
      let r := fresh "r" in
      let w' := fresh "w" in
      destruct (env R ev w) as [r w']; try destruct r; cbn
  end.

(** Closes the goals that are left once a run is computed: equations
    between traces and command lines. *)
Ltac closing :=
  repeat match goal with
         | H : _ \/ _ |- _ => destruct H
         | H : _ /\ _ |- _ => destruct H
         | H : False |- _ => destruct H
         | H : (_, _) = (_, _) |- _ => inversion H; clear H; subst
         | H : _ :: _ = _ :: _ |- _ => inversion H; clear H; subst
         | H : inl _ = inl _ |- _ => inversion H; clear H; subst
         | H : inr _ = inr _ |- _ => inversion H; clear H; subst
         | |- ~ _ => intro
         end;
  try discriminate; try congruence; try tauto; auto.

(** ** Teardown: unmount, then lock *)

(** C1, counterexample: with the mountpoint present and [udisksctl unmount]
    exiting non-zero, [cleanup] with [should_close_volume] true raises
    ERROR_UNMOUNT_VOLUME_BUSY after exactly three commands: sync, rm and
    unmount.  The lock command is not among them. *)
Lemma cleanup_unmount_busy_skips_lock :
  let o := run (scripted unmount_busy)
               (cleanup sample_mv "/tmp/sd-export" false true) 0 in
  result o = inl (ExportException ERROR_UNMOUNT_VOLUME_BUSY)
  /\ calls (trace o) = [ sync_argv; rm_argv "/tmp/sd-export";
                         unmount_argv sample_mv ]
  /\ ~ In (lock_argv sample_mv) (calls (trace o)).
Proof.
  cbv zeta. repeat split.
  intros H. vm_compute in H. intuition discriminate.
Qed.

(** C1, as amended: in [cleanup] with [should_close_volume] true the lock
    command is attempted only after an unmount step that did not fail.
    When [udisksctl unmount] exits non-zero the reported status is
    ERROR_UNMOUNT_VOLUME_BUSY and the lock command is never issued;
    whenever the lock command is issued, the commands were sync, rm,
    (unmount,) lock in this order and no unmount failed; and once teardown
    reaches the test for the unlocked device node, the lock command is
    issued exactly when that node exists.  When sync and rm completed and
    the unmount did not fail, teardown tests the mountpoint and then the
    unlocked device node, unmounts exactly when the mountpoint exists and
    issues the lock command, as its last command, exactly when the
    unlocked device node exists. *)
Theorem cleanup_locks_only_after_unmount :
  forall (W : Type) (env : forall R : Type, Event R -> W -> R * W) (w : W)
         (mv : MountedVolume) (tmpdir : string) (is_error : bool),
    let o := run env (cleanup mv tmpdir is_error true) w in
    (call_nonzero (unmount_argv mv) (trace o) = true ->
       result o = inl (ExportException ERROR_UNMOUNT_VOLUME_BUSY)
       /\ ~ In (lock_argv mv) (calls (trace o)))
    /\ (In (lock_argv mv) (calls (trace o)) ->
          call_failed (unmount_argv mv) (trace o) = false
          /\ (calls (trace o)
                = [sync_argv; rm_argv tmpdir; unmount_argv mv; lock_argv mv]
              \/ calls (trace o) = [sync_argv; rm_argv tmpdir; lock_argv mv]))
    /\ (forall p1 b1 p2 b2,
          path_answers (trace o) = [(p1, b1); (p2, b2)] ->
          (b2 = true <-> In (lock_argv mv) (calls (trace o))))
    /\ (call_failed sync_argv (trace o) = false ->
        call_failed (rm_argv tmpdir) (trace o) = false ->
        call_failed (unmount_argv mv) (trace o) = false ->
        exists b1 b2,
          path_answers (trace o)
          = [(mountpoint mv, b1); (unlocked_name mv, b2)]
          /\ calls (trace o)
             = ([sync_argv; rm_argv tmpdir]
                ++ (if b1 then [unmount_argv mv] else [])
                ++ (if b2 then [lock_argv mv] else []))%list).
Proof.
  intros W env w mv tmpdir is_error o. subst o.
  unfold cleanup, _remove_temp_directory, _close_volume, check_call,
    path_exists, trigger.
  cbn.
  repeat answer env.
  all: rewrite ?String.eqb_refl; cbn.
  all: unfold lock_argv, unmount_argv, sync_argv, rm_argv.
  all: split; [|split; [|split]].
  all: try (intros; try discriminate; do 2 eexists; split; reflexivity).
  all: repeat split; intros; closing.
Qed.

Lemma cleanup_locks_only_after_unmount_witness :
  (let o := run (scripted unmount_busy)
                (cleanup sample_mv "/tmp/sd-export" true true) 0 in
   call_nonzero (unmount_argv sample_mv) (trace o) = true
   /\ result o = inl (ExportException ERROR_UNMOUNT_VOLUME_BUSY)
   /\ ~ In (lock_argv sample_mv) (calls (trace o)))
  /\ (let o := run (scripted (all_fine []))
                   (cleanup sample_mv "/tmp/sd-export" false true) 0 in
      exists b1 b2,
        path_answers (trace o)
        = [(mountpoint sample_mv, b1); (unlocked_name sample_mv, b2)]
        /\ calls (trace o)
           = ([sync_argv; rm_argv "/tmp/sd-export"]
              ++ (if b1 then [unmount_argv sample_mv] else [])
              ++ (if b2 then [lock_argv sample_mv] else []))%list).
Proof.
  split.
  - cbv zeta. split; [reflexivity|].
    apply (proj1 (@cleanup_locks_only_after_unmount nat (scripted unmount_busy)
                    0 sample_mv "/tmp/sd-export" true)).
    reflexivity.
  - exact (proj2 (proj2 (proj2 (@cleanup_locks_only_after_unmount nat
             (scripted (all_fine [])) 0 sample_mv "/tmp/sd-export" false)))
           eq_refl eq_refl eq_refl).
Defined.

Example cleanup_all_fine :
  let o := run (scripted (all_fine []))
               (cleanup sample_mv "/tmp/sd-export" false true) 0 in
  result o = inr tt
  /\ calls (trace o) = [ sync_argv; rm_argv "/tmp/sd-export";
                         unmount_argv sample_mv; lock_argv sample_mv ].
Proof. split; reflexivity. Qed.

(** ** Teardown: which status a failed step reports *)

(** What [cleanup] reports for its own steps: a failed sync reports the
    status chosen by [is_error]; a failed removal of the temporary
    directory reports ERROR_EXPORT_CLEANUP whatever [is_error] is. *)
Lemma cleanup_failure_status :
  forall (W : Type) (env : forall R : Type, Event R -> W -> R * W) (w : W)
         (mv : MountedVolume) (tmpdir : string) (is_error close_it : bool),
    let o := run env (cleanup mv tmpdir is_error close_it) w in
    (call_nonzero sync_argv (trace o) = true ->
       result o = inl (ExportException
                         (if is_error then ERROR_EXPORT
                          else ERROR_EXPORT_CLEANUP)))
    /\ (call_nonzero (rm_argv tmpdir) (trace o) = true ->
          result o = inl (ExportException ERROR_EXPORT_CLEANUP)).
Proof.
  intros W env w mv tmpdir is_error close_it o. subst o.
  unfold cleanup, _remove_temp_directory, _close_volume, check_call,
    path_exists, trigger.
  destruct close_it; cbn.
  all: repeat answer env.
  all: rewrite ?String.eqb_refl; cbn.
  all: split; intros; closing.
Qed.

(** C2, the failing input: [cleanup] is called with [is_error] true, sync
    succeeds and [rm -rf] exits non-zero.  The status raised is
    ERROR_EXPORT_CLEANUP, not ERROR_EXPORT: the exception that
    [_remove_temp_directory] raises is no [CalledProcessError], so the
    [except] clause of [cleanup] that would report [error_status] never
    sees it. *)
Theorem cleanup_rm_failure_reports_cleanup_status :
  let o := run (scripted rm_fails)
               (cleanup sample_mv "/tmp/sd-export" true true) 0 in
  result o = inl (ExportException ERROR_EXPORT_CLEANUP)
  /\ calls (trace o) = [ sync_argv; rm_argv "/tmp/sd-export" ]
  /\ call_nonzero (rm_argv "/tmp/sd-export") (trace o) = true.
Proof. repeat split. Qed.

(** ** The export writer *)

(** C7, the failing input: [mkdir] exits non-zero, so the [except] clause
    sets [is_error] and raises the export error, and [cleanup] runs, once,
    with [is_error] true; [udisksctl unmount] then exits non-zero inside
    [cleanup].  The status that leaves [write_data_to_device] is
    ERROR_UNMOUNT_VOLUME_BUSY, not ERROR_EXPORT: the exception that
    [_close_volume] raises in the [finally] clause takes the place of the
    export error, which the comment in the [except] clause and the
    docstring of [cleanup] say is the one reported, and which is the one
    reported when it is the sync step that fails. *)
Theorem write_data_export_error_replaced :
  (let o := run (scripted mkdir_fails_unmount_busy)
                (write_data_to_device sample_mv "/tmp/sd-export" "sd-export")
                0 in
   call_nonzero (mkdir_argv sample_mv "sd-export") (trace o) = true
   /\ calls (trace o)
      = [ mkdir_argv sample_mv "sd-export"; sync_argv;
          rm_argv "/tmp/sd-export"; unmount_argv sample_mv ]
   /\ result o = inl (ExportException ERROR_UNMOUNT_VOLUME_BUSY)
   /\ result o <> inl (ExportException ERROR_EXPORT))
  /\ (let o := run (scripted mkdir_fails_sync_fails)
                   (write_data_to_device sample_mv "/tmp/sd-export"
                      "sd-export") 0 in
      calls (trace o) = [ mkdir_argv sample_mv "sd-export"; sync_argv ]
      /\ result o = inl (ExportException ERROR_EXPORT)).
Proof.
  repeat split. cbv zeta. intros H. vm_compute in H. discriminate.
Qed.

(** X20: every run of [write_data_to_device] is the run of its [try]
    block followed by exactly one run of [cleanup]; the [is_error] flag
    handed to [cleanup] is true exactly when mkdir or cp failed; sync, the
    first command of [cleanup], is issued exactly once on every path.
    A failed mkdir or cp is reported as ERROR_EXPORT when [cleanup] returns
    or fails in its sync step, and as ERROR_UNMOUNT_VOLUME_BUSY when the
    unmount step of [cleanup] fails; when neither mkdir nor cp failed, the
    call ends the way [cleanup] ends. *)
Theorem write_data_to_device_cleans_up_once :
  forall (W : Type) (env : forall R : Type, Event R -> W -> R * W) (w : W)
         (device : MountedVolume) (tmpdir target : string),
    let body := run env (write_data_to_device_body device tmpdir target) w in
    let is_error :=
      call_failed (mkdir_argv device target) (trace body)
      || call_failed (cp_argv device tmpdir target) (trace body) in
    let fin := run env (cleanup device tmpdir is_error true) (final body) in
    let o := run env (write_data_to_device device tmpdir target) w in
    trace o = (trace body ++ trace fin)%list
    /\ final o = final fin
    /\ is_error = raised (result body)
    /\ count_calls sync_argv (trace o) = 1
    /\ (is_error = true ->
          (result fin = inr tt ->
             result o = inl (ExportException ERROR_EXPORT))
          /\ (call_nonzero sync_argv (trace fin) = true ->
                result o = inl (ExportException ERROR_EXPORT))
          /\ (call_nonzero (unmount_argv device) (trace fin) = true ->
                result o = inl (ExportException ERROR_UNMOUNT_VOLUME_BUSY)))
    /\ (is_error = false -> result o = result fin).
Proof.
  intros W env w device tmpdir target body is_error fin o.
  subst body is_error fin o.
  unfold write_data_to_device, write_data_to_device_body, cleanup,
    _remove_temp_directory, _close_volume, check_call, path_exists, trigger,
    mkdir_argv, cp_argv, count_calls.
  cbn.
  answer env.
  all: rewrite ?String.eqb_refl; cbn.
  all: repeat answer env.
  all: rewrite ?String.eqb_refl; cbn.
  all: repeat split; intros; closing.
Qed.

Lemma write_data_to_device_cleans_up_once_witness :
  let o := run (scripted mkdir_fails_unmount_busy)
               (write_data_to_device sample_mv "/tmp/sd-export" "sd-export") 0 in
  count_calls sync_argv (trace o) = 1
  /\ result o = inl (ExportException ERROR_UNMOUNT_VOLUME_BUSY).
Proof.
  pose proof (@write_data_to_device_cleans_up_once nat
                (scripted mkdir_fails_unmount_busy) 0 sample_mv
                "/tmp/sd-export" "sd-export") as H.
  cbv zeta in H.
  destruct H as (_ & _ & _ & Hsync & Herr & _).
  split; [exact Hsync|].
  apply (proj2 (proj2 (Herr eq_refl))). reflexivity.
Defined.

Example write_data_all_fine :
  let o := run (scripted (all_fine []))
               (write_data_to_device sample_mv "/tmp/sd-export" "sd-export") 0 in
  result o = inr tt
  /\ calls (trace o)
     = [ ["mkdir"; "/media/user/USB/sd-export"];
         ["cp"; "-r"; "/tmp/sd-export/export_data/"; "/media/user/USB/sd-export"];
         sync_argv; rm_argv "/tmp/sd-export";
         unmount_argv sample_mv; lock_argv sample_mv ].
Proof. split; reflexivity. Qed.

(** ** Volume selection *)

Example parse_targets_one : parse_targets status_one_drive = ["sda"].
Proof. reflexivity. Qed.

Example parse_targets_two : parse_targets status_two_drives = ["sda"; "sdb"].
Proof. reflexivity. Qed.

Example parse_targets_none : parse_targets _UDISKS_PREFIX = [].
Proof. reflexivity. Qed.

(** C3, the failing input: one attached drive whose only partition has an
    unlocked, mounted crypt child, while [udisksctl info] reports neither
    crypto_TCRYPT nor crypto_LUKS.  [get_volume] returns the mounted
    volume although its scheme is UNKNOWN: the branch for a mounted child
    builds the [MountedVolume] without the test on the scheme that the two
    other branches of [_get_supported_volume] make. *)
Theorem get_volume_returns_unknown_mounted :
  let o := run (scripted one_drive_no_idtype)
               (get_volume (fun _ => Some tree_unlocked_mounted)) 0 in
  result o = inr (Mounted {| mv_device_name := "/dev/sda1";
                             unlocked_name := "/dev/mapper/tcrypt-2049";
                             mv_encryption := UNKNOWN;
                             mountpoint := "/media/user/USB" |})
  /\ queries (trace o)
     = [ status_argv; lsblk_argv; info_argv (mkVolume "/dev/sda1" UNKNOWN) ].
Proof. split; reflexivity. Qed.

(** ** Runs of composed programs *)

Arguments strip : simpl never.
Arguments group : simpl never.
Arguments parse_targets : simpl never.
Arguments _mount_volume : simpl never.
Arguments _is_it_veracrypt : simpl never.

Section RunFacts.

Variable W : Type.
Variable env : forall R : Type, Event R -> W -> R * W.

(** A run of [bind p f] is the run of [p] followed, when [p] returns, by
    the run of [f] from where [p] left the environment. *)
Lemma run_bind (A B : Type) (p : Prog A) (f : A -> Prog B) (w : W) :
  run env (bind p f) w =
  let o1 := run env p w in
  match result o1 with
  | inr a =>
      let o2 := run env (f a) (final o1) in
      mkOutcome (result o2) (trace o1 ++ trace o2)%list (final o2)
  | inl e => mkOutcome (inl e) (trace o1) (final o1)
  end.
Proof.
  revert w. induction p as [a|e|R ev k IH]; intros w; cbn.
  - destruct (run env (f a) w); reflexivity.
  - reflexivity.
  - destruct (env ev w) as [r w']. rewrite IH. cbn.
    destruct (run env (k r) w') as [res t w'']; cbn.
    destruct res as [e|a]; cbn; [reflexivity|].
    destruct (run env (f a) w''); reflexivity.
Qed.

Lemma queries_app (t1 t2 : Trace) :
  queries (t1 ++ t2)%list = (queries t1 ++ queries t2)%list.
Proof.
  induction t1 as [|[R ev r] t1 IH]; cbn; [reflexivity|].
  destruct ev; cbn; now rewrite IH.
Qed.

Lemma query_answers_app (t1 t2 : Trace) :
  query_answers (t1 ++ t2)%list = (query_answers t1 ++ query_answers t2)%list.
Proof.
  induction t1 as [|[R ev r] t1 IH]; cbn; [reflexivity|].
  destruct ev; cbn; now rewrite IH.
Qed.

(** The readiness poll returns, and asks nothing of [check_output]. *)
Lemma _mount_volume_poll_returns (info : string) (pats : list Pat)
  (n : nat) (w : W) :
  result (run env (_mount_volume_poll info pats n) w) = inr tt
  /\ query_answers (trace (run env (_mount_volume_poll info pats n) w)) = [].
Proof.
  revert w. induction n as [|n IH]; intros w; cbn; [auto|].
  destruct (env (spawn_ev info) w) as [[] w1]; cbn.
  destruct (env (expect_ev pats) w1) as [[i g] w2]; cbn.
  destruct (env close_ev w2) as [[] w3]; cbn.
  destruct i as [|i]; cbn; [auto|].
  destruct (env (sleep_ev _) w3) as [[] w4]; cbn.
  specialize (IH w4).
  destruct (run env (_mount_volume_poll info pats n) w4); cbn in *.
  exact IH.
Qed.

(** What [_mount_volume] can do: return a volume that keeps the device
    name and the scheme of its argument and has a non-empty mountpoint,
    or raise ERROR_MOUNT; it never calls [check_output]. *)
Lemma _mount_volume_ends (volume : Volume) (name : string) (w : W) :
  let o := run env (_mount_volume volume name) w in
  query_answers (trace o) = []
  /\ ((exists mv, result o = inr mv
                  /\ mv_device_name mv = device_name volume
                  /\ mv_encryption mv = encryption volume
                  /\ truthy (mountpoint mv) = true)
      \/ result o = inl (ExportException ERROR_MOUNT)).
Proof.
  cbv zeta. unfold _mount_volume.
  rewrite run_bind. cbv zeta.
  match goal with
  | |- context [run env (_mount_volume_poll ?i ?p ?n) w] =>
      destruct (_mount_volume_poll_returns i p n w) as [Hr Hq];
      destruct (run env (_mount_volume_poll i p n) w) as [r0 t0 w0]
  end.
  cbn in Hr, Hq. subst r0. cbn.
  rewrite !query_answers_app, Hq. cbn.
  repeat answer env.
  destruct index0 as [|[|i]]; cbn.
  - repeat answer env.
    destruct (truthy (strip (group 1 _))) eqn:E; cbn; split; auto.
    left. eexists; repeat split. exact E.
  - repeat answer env.
    destruct (truthy (strip (group 2 _))) eqn:E; cbn; split; auto.
    left. eexists; repeat split. exact E.
  - repeat answer env. split; auto.
Qed.

End RunFacts.

(** ** Classification *)

Section Classification.

Variable W : Type.
Variable env : forall R : Type, Event R -> W -> R * W.

(** [_is_it_veracrypt] asks [udisksctl info] once; when that command
    exits with a non-zero status the answer is UNKNOWN, returned as a
    value. *)
Lemma _is_it_veracrypt_ends (volume : Volume) (w : W) :
  let q := run env (_is_it_veracrypt volume) w in
  (exists a, query_answers (trace q) = [(info_argv volume, a)])
  /\ (query_nonzero (trace q) = true -> result q = inr UNKNOWN)
  /\ (query_nonzero (trace q) = false ->
        result q = inl OSError \/ exists s, result q = inr s).
Proof.
  cbv zeta. unfold _is_it_veracrypt, check_output, trigger, query_nonzero.
  cbn. answer env.
  - repeat match goal with
           | |- context [if ?b then _ else _] => destruct b; cbn
           end.
    all: repeat split; eauto; discriminate.
  - repeat split; eauto; discriminate.
  - repeat split; eauto; discriminate.
Qed.

(** When [udisksctl info] exits with a non-zero status, that query is
    all [_is_it_veracrypt] does, and UNKNOWN is what it returns. *)
Lemma _is_it_veracrypt_degrades (volume : Volume) (w : W) :
  fst (env (check_output_ev (info_argv volume)) w) = NonZeroExit ->
  run env (_is_it_veracrypt volume) w
  = mkOutcome (inr UNKNOWN)
      [Occ (check_output_ev (info_argv volume)) NonZeroExit]
      (snd (env (check_output_ev (info_argv volume)) w)).
Proof.
  unfold _is_it_veracrypt, check_output, trigger, info_argv. cbn.
  destruct (env (check_output_ev _) w) as [a w1]; cbn.
  intros ->. reflexivity.
Qed.

(** C5: a partition whose filesystem type is crypto_LUKS is classified
    LUKS without asking [udisksctl info]: whatever
    [_get_supported_volume] returns for it carries the scheme LUKS (hence
    never VERACRYPT), and the call either returns or raises ERROR_MOUNT.
    Case by case: without children it is the bare LUKS volume; with a
    single crypt child that is mounted it is the mounted LUKS volume, with
    no event at all; with a single crypt child that is not mounted the
    call is the call of [_mount_volume] on the LUKS volume.
    When the device-info query is made and exits with a non-zero status,
    [_is_it_veracrypt] returns UNKNOWN as a value, having done nothing
    but that query, and [_get_supported_volume] returns normally: for a
    partition without the LUKS signature whose single crypt child is
    mounted it returns the mounted volume with scheme UNKNOWN, and when
    the child is not mounted it returns no volume.  The loop over the
    partitions then goes on with the partitions that are left. *)
Theorem crypto_LUKS_is_LUKS_and_info_failure_is_UNKNOWN :
  forall (device : Device) (volume : Volume) (w : W),
    let o := run env (_get_supported_volume device) w in
    let q := run env (_is_it_veracrypt volume) w in
    let path := _DEV_PREFIX ++ dev_name device in
    (dev_fstype device = Some "crypto_LUKS" ->
       query_answers (trace o) = []
       /\ (forall v, result o = inr (Some v) ->
                     any_encryption v = LUKS /\ any_encryption v <> VERACRYPT)
       /\ ((exists r, result o = inr r)
           \/ result o = inl (ExportException ERROR_MOUNT))
       /\ (childless device = true ->
             result o = inr (Some (Bare (mkVolume path LUKS)))
             /\ trace o = [])
       /\ (forall child,
             dev_children device = Some [child] ->
             dev_type child = "crypt" ->
             (forall mp,
                 dev_mountpoint child = Some mp -> truthy mp = true ->
                 result o
                 = inr (Some (Mounted
                          {| mv_device_name := path;
                             unlocked_name :=
                               _DEVMAPPER_PREFIX ++ dev_name child;
                             mv_encryption := LUKS;
                             mountpoint := mp |}))
                 /\ trace o = [])
             /\ (dev_mountpoint child = None
                 \/ dev_mountpoint child = Some EmptyString ->
                 let m := run env (_mount_volume
                                     (mkVolume path LUKS)
                                     (_DEVMAPPER_PREFIX ++ dev_name child))
                              w in
                 trace o = trace m
                 /\ final o = final m
                 /\ result o = match result m with
                               | inr mv => inr (Some (Mounted mv))
                               | inl e => inl e
                               end)))
    /\ (query_nonzero (trace o) = true ->
          exists r, result o = inr r
                    /\ forall v, r = Some v -> any_encryption v = UNKNOWN)
    /\ (query_nonzero (trace q) = true -> result q = inr UNKNOWN)
    /\ (fst (env (check_output_ev (info_argv volume)) w) = NonZeroExit ->
          result q = inr UNKNOWN
          /\ queries (trace q) = [info_argv volume]
          /\ length (trace q) = 1)
    /\ (dev_fstype device <> Some "crypto_LUKS" ->
        forall child,
          dev_children device = Some [child] ->
          dev_type child = "crypt" ->
          fst (env (check_output_ev (info_argv (mkVolume path UNKNOWN))) w)
          = NonZeroExit ->
          queries (trace o) = [info_argv (mkVolume path UNKNOWN)]
          /\ length (trace o) = 1
          /\ result o
             = inr (match dev_mountpoint child with
                    | Some mp =>
                        if truthy mp then
                          Some (Mounted
                                  {| mv_device_name := path;
                                     unlocked_name :=
                                       _DEVMAPPER_PREFIX ++ dev_name child;
                                     mv_encryption := UNKNOWN;
                                     mountpoint := mp |})
                        else None
                    | None => None
                    end))
    /\ (query_nonzero (trace o) = true ->
        forall (rest : list Device) (volumes : list AnyVolume),
          exists r,
            result o = inr r
            /\ run env (collect _get_supported_volume (device :: rest)
                          volumes) w
               = let o' := run env (collect _get_supported_volume rest
                                      match r with
                                      | Some v => (volumes ++ [v])%list
                                      | None => volumes
                                      end) (final o) in
                 mkOutcome (result o') (trace o ++ trace o')%list (final o')).
Proof.
  intros device volume w o q path.
  assert (Hinfo : query_nonzero (trace o) = true ->
            exists r, result o = inr r
                      /\ forall v, r = Some v -> any_encryption v = UNKNOWN).
  { subst o. clear q path.
    destruct device as [n r t m f c].
    unfold _get_supported_volume, query_nonzero. cbn.
    destruct (opt_str_eqb f "crypto_LUKS"); cbn.
    all: destruct c as [[|child0 [|child1 rest]]|]; cbn; try discriminate.
    all: destruct (String.eqb (dev_type child0) "crypt"); cbn;
      try discriminate.
    + destruct (dev_mountpoint child0) as [[|c0 mp]|]; cbn; try discriminate.
      all: rewrite run_bind; cbv zeta.
      all: match goal with
           | |- context [run env (_mount_volume ?v ?nm) ?w1] =>
               destruct (_mount_volume_ends env v nm w1) as [Hq Hr];
               destruct (run env (_mount_volume v nm) w1) as [r0 t0 w0]
           end.
      all: cbn in Hq, Hr.
      all: destruct Hr as [(mv & -> & Hd & He & Ht)| ->]; cbn.
      all: rewrite ?query_answers_app, ?Hq; cbn; discriminate.
    + rewrite run_bind; cbv zeta.
      match goal with
      | |- context [run env (_is_it_veracrypt ?v) ?w1] =>
          destruct (_is_it_veracrypt_ends v w1) as [[a Ha] [Hn _]];
          unfold query_nonzero in Hn;
          destruct (run env (_is_it_veracrypt v) w1) as [r0 t0 w0]
      end.
      cbn in Ha, Hn. rewrite Ha in Hn. cbn in Hn.
      destruct (proc_nonzero a) eqn:Hnz; cbn in Hn.
      * specialize (Hn eq_refl). subst r0. cbn.
        destruct (dev_mountpoint child0) as [[|c0 mp]|]; cbn; intros _.
        all: eexists; split; [reflexivity|].
        all: intros v Hv; inversion Hv; reflexivity || discriminate.
      * clear Hn. destruct r0 as [e|s]; cbn.
        { rewrite Ha. cbn. rewrite Hnz. discriminate. }
        destruct (dev_mountpoint child0) as [[|c0 mp]|]; cbn.
        all: try destruct (supported_scheme s); cbn.
        all: try (rewrite run_bind; cbv zeta;
                  match goal with
                  | |- context [run env (_mount_volume ?v ?nm) ?w1] =>
                      destruct (_mount_volume_ends env v nm w1) as [Hq Hr];
                      destruct (run env (_mount_volume v nm) w1) as [r1 t1 w1']
                  end;
                  cbn in Hq, Hr;
                  destruct Hr as [(mv & -> & Hd & He & Ht)| ->]; cbn).
        all: unfold supported_or_none; try destruct (supported_scheme _); cbn.
        all: rewrite ?query_answers_app, ?Hq, ?Ha; cbn; rewrite Hnz.
        all: discriminate. }
  split; [|split; [exact Hinfo|split; [apply _is_it_veracrypt_ends|split;
    [|split]]]].
  - intros Hfs. subst o path. clear Hinfo.
    destruct device as [n r t m f c]. cbn in Hfs. subst f.
    split; [|split; [|split; [|split]]].
    4: { unfold _get_supported_volume, childless. cbn.
         destruct c as [[|c0 cs]|]; try discriminate; intros _;
           split; reflexivity. }
    4: { intros child Hch Hty. cbn in Hch. subst c.
         unfold _get_supported_volume. cbn. rewrite Hty. cbn. split.
         - intros mp -> Hmp. destruct mp; [discriminate|]. cbn.
           split; reflexivity.
         - intros Hmp.
           assert (Hb : forall w1,
             run env (mv <- _mount_volume (mkVolume ("/dev/" ++ n) LUKS)
                              ("/dev/mapper/" ++ dev_name child) ;;
                      Ret (Some (Mounted mv))) w1
             = let m := run env (_mount_volume (mkVolume ("/dev/" ++ n) LUKS)
                                   ("/dev/mapper/" ++ dev_name child)) w1 in
               mkOutcome (match result m with
                          | inr mv => inr (Some (Mounted mv))
                          | inl e => inl e
                          end) (trace m) (final m)).
           { intros w1. rewrite run_bind. cbv zeta.
             destruct (run env (_mount_volume _ _) w1) as [[e|mv] t0 w0];
               cbn; rewrite ?app_nil_r; reflexivity. }
           destruct Hmp as [-> | ->]; cbn.
           all: rewrite Hb; cbn; repeat split. }
    all: unfold _get_supported_volume; cbn.
    all: destruct c as [[|child0 [|child1 rest]]|]; cbn.
    all: try (repeat split; eauto; intros; closing; subst; cbn; congruence).
    all: destruct (String.eqb (dev_type child0) "crypt"); cbn.
    all: try (repeat split; eauto; intros; closing; subst; cbn; congruence).
    all: destruct (dev_mountpoint child0) as [[|c0 mp]|]; cbn.
    all: try (repeat split; eauto; intros; closing; subst; cbn; congruence).
    all: rewrite run_bind; cbv zeta.
    all: match goal with
         | |- context [run env (_mount_volume ?v ?nm) ?w1] =>
             destruct (_mount_volume_ends env v nm w1) as [Hq Hr];
             destruct (run env (_mount_volume v nm) w1) as [r0 t0 w0]
         end.
    all: cbn in Hq, Hr.
    all: destruct Hr as [(mv & -> & Hd & He & Ht)| ->]; cbn.
    all: rewrite ?query_answers_app, ?Hq; cbn.
    all: repeat split; eauto; intros; closing; subst; cbn in *; congruence.
  - intros Hq. subst q. rewrite (_is_it_veracrypt_degrades _ _ Hq). cbn.
    repeat split.
  - intros Hfs child Hch Hty Hq. subst o path. clear Hinfo q.
    destruct device as [n r t m f c]. cbn in Hfs, Hch, Hq |- *. subst c.
    assert (Hf : opt_str_eqb f "crypto_LUKS" = false).
    { destruct f as [s|]; [|reflexivity]. cbn.
      destruct (String.eqb_spec s "crypto_LUKS"); congruence. }
    unfold _get_supported_volume. cbn. rewrite Hf, Hty. cbn.
    rewrite run_bind. cbv zeta.
    rewrite (_is_it_veracrypt_degrades _ _ Hq). cbn.
    destruct (dev_mountpoint child) as [[|c0 mp]|]; cbn; repeat split.
  - intros Hnz rest volumes.
    destruct (Hinfo Hnz) as (r & Hr & _).
    exists r. split; [exact Hr|].
    change (collect _get_supported_volume (device :: rest) volumes)
      with (item <- _get_supported_volume device ;;
            match item with
            | Some v => collect _get_supported_volume rest (volumes ++ [v])%list
            | None => collect _get_supported_volume rest volumes
            end).
    rewrite run_bind. cbv zeta. fold o. rewrite Hr.
    destruct r; reflexivity.
Qed.

End Classification.

Lemma crypto_LUKS_is_LUKS_and_info_failure_is_UNKNOWN_witness :
  (let o := run (scripted (all_fine []))
                (_get_supported_volume luks_locked_partition) 0 in
   result o = inr (Some (Bare (mkVolume "/dev/sda1" LUKS)))
   /\ trace o = [])
  /\ (let o := run (scripted (all_fine []))
                   (_get_supported_volume luks_unlocked_mounted_partition) 0 in
      result o = inr (Some (Mounted {| mv_device_name := "/dev/sda1";
                                       unlocked_name := "/dev/mapper/luks-1234";
                                       mv_encryption := LUKS;
                                       mountpoint := "/media/user/USB" |}))
      /\ trace o = [])
  /\ (let o := run (scripted one_drive_info_fails)
                   (_get_supported_volume unlocked_mounted_partition) 0 in
      queries (trace o) = [info_argv (mkVolume "/dev/sda1" UNKNOWN)]
      /\ length (trace o) = 1
      /\ result o = inr (Some (Mounted
                                 {| mv_device_name := "/dev/sda1";
                                    unlocked_name := "/dev/mapper/tcrypt-2049";
                                    mv_encryption := UNKNOWN;
                                    mountpoint := "/media/user/USB" |})))
  /\ (let q := run (scripted one_drive_info_fails)
                   (_is_it_veracrypt (mkVolume "/dev/sda1" UNKNOWN)) 0 in
      result q = inr UNKNOWN).
Proof.
  split; [|split; [|split]].
  - apply (proj1 (proj2 (proj2 (proj2 (proj1
             (@crypto_LUKS_is_LUKS_and_info_failure_is_UNKNOWN
                nat (scripted (all_fine [])) luks_locked_partition
                (mkVolume "/dev/sda1" UNKNOWN) 0) eq_refl)))) eq_refl).
  - apply (proj1 (proj2 (proj2 (proj2 (proj2 (proj1
             (@crypto_LUKS_is_LUKS_and_info_failure_is_UNKNOWN
                nat (scripted (all_fine [])) luks_unlocked_mounted_partition
                (mkVolume "/dev/sda1" UNKNOWN) 0) eq_refl))))
             (mkDevice "luks-1234" false "crypt" (Some "/media/user/USB")
                (Some "ext4") None) eq_refl eq_refl)
           "/media/user/USB" eq_refl eq_refl).
  - apply (proj1 (proj2 (proj2 (proj2 (proj2
             (@crypto_LUKS_is_LUKS_and_info_failure_is_UNKNOWN
                nat (scripted one_drive_info_fails)
                unlocked_mounted_partition
                (mkVolume "/dev/sda1" UNKNOWN) 0)))))
           ltac:(discriminate)
           (mkDevice "tcrypt-2049" false "crypt" (Some "/media/user/USB")
              (Some "vfat") None) eq_refl eq_refl eq_refl).
  - apply (proj1 (proj2 (proj2 (@crypto_LUKS_is_LUKS_and_info_failure_is_UNKNOWN
                    nat (scripted one_drive_info_fails)
                    unlocked_mounted_partition
                    (mkVolume "/dev/sda1" UNKNOWN) 0))) eq_refl).
Defined.

(** ** Device enumeration *)

Section Enumeration.

Variable W : Type.
Variable env : forall R : Type, Event R -> W -> R * W.
Variable json_loads : string -> option Lsblk.

(** C9: when [udisksctl status], the first thing [get_volume] asks of the
    environment, prints a table from which no device identifier is parsed, [get_volume] raises NO_DEVICE_DETECTED; when
    more than one identifier is parsed, it raises MULTI_DEVICE_DETECTED.
    In both cases the status query is the only thing the call did: no
    [lsblk], no [udisksctl info], no mount. *)
Theorem get_volume_needs_exactly_one_device :
  forall (w : W) (table : string),
    let o := run env (get_volume json_loads) w in
    fst (env (check_output_ev status_argv) w) = Completed table ->
    (length (parse_targets table) = 0 ->
       result o = inl (ExportException NO_DEVICE_DETECTED)
       /\ queries (trace o) = [status_argv]
       /\ length (trace o) = 1)
    /\ (1 < length (parse_targets table) ->
          result o = inl (ExportException MULTI_DEVICE_DETECTED)
          /\ queries (trace o) = [status_argv]
          /\ length (trace o) = 1).
Proof.
  intros w table o. subst o.
  unfold get_volume, check_output, trigger, status_argv. cbn.
  answer env; cbn; intros H; try discriminate.
  inversion H; subst a; clear H.
  destruct (parse_targets table) as [|t1 [|t2 ts]]; cbn.
  - split; [auto|intros; lia].
  - split; intros; lia.
  - split; [intros; discriminate|auto].
Qed.

End Enumeration.

Lemma get_volume_needs_exactly_one_device_witness :
  (let o := run (scripted (status_prints _UDISKS_PREFIX))
                (get_volume (fun _ => None)) 0 in
   result o = inl (ExportException NO_DEVICE_DETECTED)
   /\ queries (trace o) = [status_argv] /\ length (trace o) = 1)
  /\ (let o := run (scripted (status_prints status_two_drives))
                   (get_volume (fun _ => None)) 0 in
      result o = inl (ExportException MULTI_DEVICE_DETECTED)
      /\ queries (trace o) = [status_argv] /\ length (trace o) = 1).
Proof.
  split.
  - apply (proj1 (@get_volume_needs_exactly_one_device nat
                    (scripted (status_prints _UDISKS_PREFIX))
                    (fun _ => None) 0 _UDISKS_PREFIX eq_refl)).
    reflexivity.
  - apply (proj2 (@get_volume_needs_exactly_one_device nat
                    (scripted (status_prints status_two_drives))
                    (fun _ => None) 0 status_two_drives eq_refl)).
    vm_compute. lia.
Defined.

(** ** Unlocking *)

Section Unlock.

Variable W : Type.
Variable env : forall R : Type, Event R -> W -> R * W.

(** C4: when the answer to the first [expect] of [unlock_volume] is not
    the passphrase prompt (so EOF, TIMEOUT), the call raises
    ERROR_UNLOCK_GENERIC and expects nothing further.  Once the passphrase
    is sent, the incorrect-passphrase answer raises ERROR_UNLOCK_LUKS (and
    so not ERROR_UNLOCK_GENERIC), and every answer that is none of
    freshly-unlocked, already-unlocked and incorrect-passphrase (so EOF,
    TIMEOUT) raises ERROR_UNLOCK_GENERIC. *)
Theorem unlock_volume_error_status :
  forall (w : W) (volume : Volume) (key : string),
    let o := run env (unlock_volume volume key) w in
    (forall e rest,
        expectations (trace o) = e :: rest ->
        fst e = [Re prompt_pattern; EOF; TIMEOUT]
        /\ (matched_pat e <> Some (Re prompt_pattern) ->
              result o = inl (ExportException ERROR_UNLOCK_GENERIC)
              /\ rest = []))
    /\ (forall e0 e rest,
          expectations (trace o) = e0 :: e :: rest ->
          fst e = [ Re (unlocked_pattern volume);
                    Re (already_unlocked_pattern volume);
                    Re (incorrect_passphrase_pattern volume);
                    EOF; TIMEOUT ]
          /\ (matched_pat e = Some (Re (incorrect_passphrase_pattern volume)) ->
                result o = inl (ExportException ERROR_UNLOCK_LUKS)
                /\ result o <> inl (ExportException ERROR_UNLOCK_GENERIC))
          /\ (matched_pat e <> Some (Re (unlocked_pattern volume)) ->
              matched_pat e <> Some (Re (already_unlocked_pattern volume)) ->
              matched_pat e <> Some (Re (incorrect_passphrase_pattern volume)) ->
              result o = inl (ExportException ERROR_UNLOCK_GENERIC))).
Proof.
  intros w volume key o. subst o.
  unfold unlock_volume, spawn, expect, sendline, close, trigger, matched_pat,
    prompt_pattern, unlocked_pattern, already_unlocked_pattern,
    incorrect_passphrase_pattern.
  cbn.
  answer env. answer env.
  destruct index0 as [|[|[|i]]]; cbn.
  2-4: split; intros; closing; cbn in *; closing; destruct i; closing.
  answer env. answer env.
  destruct index0 as [|[|[|[|[|i]]]]]; cbn.
  all: answer env.
  all: try match goal with
           | |- context [run env (_mount_volume ?v ?n) ?w1] =>
               destruct (run env (_mount_volume v n) w1) as [res t wf]; cbn
           end.
  all: split; intros; closing; cbn in *; repeat split; intros; closing.
  all: try (destruct i; cbn in *; closing).
Qed.

End Unlock.

Lemma unlock_volume_error_status_witness :
  (let o := run (scripted (no_prompt 1)) (unlock_volume sample_volume "hunter2") 0 in
   matched_pat ([Re prompt_pattern; EOF; TIMEOUT], mkMatched 1 []) = Some EOF
   /\ result o = inl (ExportException ERROR_UNLOCK_GENERIC))
  /\ (let o := run (scripted (prompt_then 2 [])) (unlock_volume sample_volume "hunter2") 0 in
      result o = inl (ExportException ERROR_UNLOCK_LUKS)
      /\ result o <> inl (ExportException ERROR_UNLOCK_GENERIC))
  /\ (let o := run (scripted (prompt_then 4 [])) (unlock_volume sample_volume "hunter2") 0 in
      result o = inl (ExportException ERROR_UNLOCK_GENERIC)).
Proof.
  split; [|split].
  - split; [reflexivity|].
    refine (proj1 (proj2 (proj1 (@unlock_volume_error_status nat
              (scripted (no_prompt 1)) 0 sample_volume "hunter2")
              _ _ eq_refl) _)).
    cbv. discriminate.
  - refine (proj1 (proj2 (proj2 (@unlock_volume_error_status nat
              (scripted (prompt_then 2 [])) 0 sample_volume "hunter2")
              _ _ _ eq_refl)) eq_refl).
  - refine (proj2 (proj2 (proj2 (@unlock_volume_error_status nat
              (scripted (prompt_then 4 [])) 0 sample_volume "hunter2")
              _ _ _ eq_refl)) _ _ _); cbv; discriminate.
Defined.

Example unlock_wrong_passphrase_never_mounts :
  let o := run (scripted (prompt_then 2 [])) (unlock_volume sample_volume "wrong") 0 in
  spawned (trace o) = ["udisksctl unlock --block-device /dev/sda1"].
Proof. reflexivity. Qed.

(** ** Mounting *)

(** Answers the next [expect] of a run, separating the first entry of the
    pattern list from the others. *)
Ltac answer_expect env :=
  match goal with
  | |- context [env ?R (expect_ev ?p) ?w] =>
      let i := fresh "i" in
      let g := fresh "g" in
      let w' := fresh "w" in
      destruct (env R (expect_ev p) w) as [[i g] w'];
      destruct i as [|i]; cbn
  end.

(** The same, separating the first two entries from the others. *)
Ltac answer_expect2 env :=
  match goal with
  | |- context [env ?R (expect_ev ?p) ?w] =>
      let i := fresh "i" in
      let g := fresh "g" in
      let w' := fresh "w" in
      destruct (env R (expect_ev p) w) as [[i g] w'];
      destruct i as [|[|i]]; cbn
  end.

(** C8, counterexample: the mount command answers with its first pattern,
    freshly mounted, but the text captured for the mountpoint is blank.
    [_mount_volume] raises ERROR_MOUNT although the device was mounted:
    no [MountedVolume] is returned on this fresh mount. *)
Lemma mount_volume_blank_capture_raises :
  let o := run (scripted (ready_at 0 0 [" " ++ cr ++ nl]))
               (_mount_volume sample_volume "/dev/mapper/luks-1234") 0 in
  map matched_pat (expectations (trace o))
  = [ Some (Re (preferred_device_pattern sample_volume));
      Some (Re mounted_pattern) ]
  /\ result o = inl (ExportException ERROR_MOUNT).
Proof. split; reflexivity. Qed.

Section Mount.

Variable W : Type.
Variable env : forall R : Type, Event R -> W -> R * W.

(** C8, as amended: a run of [_mount_volume] is one to three rounds of the
    readiness poll followed by one mount command.  A round that does not
    see the preferred-device line is followed by a sleep of half a second
    and, if it was not the third, by another round; the first round that
    sees it ends the poll.  Every round expects the four entries of
    [expected_info] and the mount command the five entries of
    [expected_mount], in the order of the source.  The mount command then
    decides: entry 0 (freshly mounted) with a mountpoint that is not blank
    returns the volume with the unlocked name passed in and the reported
    mountpoint; entry 1 (already mounted) with a mountpoint that is not
    blank returns the volume with the unlocked name and the mountpoint the
    command reports; every other entry (not ready, EOF, TIMEOUT) raises
    ERROR_MOUNT, and so do entries 0 and 1 when the mountpoint captured is
    blank. *)
Theorem mount_volume_protocol :
  forall (w : W) (volume : Volume) (full_unlocked_name : string),
    let o := run env (_mount_volume volume full_unlocked_name) w in
    let polls := removelast (matches (trace o)) in
    let m := last (matches (trace o)) no_match in
    matches (trace o) = (polls ++ [m])%list
    /\ 1 <= length polls <= 3
    /\ (forall p, In p (removelast polls) -> index p <> 0)
    /\ (length polls < 3 -> index (last polls no_match) = 0)
    /\ steps (trace o)
       = (flat_map (poll_round volume) polls
          ++ [Spawned (mount_command full_unlocked_name);
              Expected (index m); Closed])%list
    /\ (index m = 0 -> truthy (strip (group 1 m)) = true ->
          result o = inr {| mv_device_name := device_name volume;
                            unlocked_name := full_unlocked_name;
                            mv_encryption := encryption volume;
                            mountpoint := strip (group 1 m) |})
    /\ (index m = 1 -> truthy (strip (group 2 m)) = true ->
          result o = inr {| mv_device_name := device_name volume;
                            unlocked_name := strip (group 1 m);
                            mv_encryption := encryption volume;
                            mountpoint := strip (group 2 m) |})
    /\ (index m <> 0 -> index m <> 1 ->
          result o = inl (ExportException ERROR_MOUNT))
    /\ expectations (trace o)
       = (map (fun p => (expected_info volume, p)) polls
          ++ [(expected_mount, m)])%list
    /\ (index m = 0 -> truthy (strip (group 1 m)) = false ->
          result o = inl (ExportException ERROR_MOUNT))
    /\ (index m = 1 -> truthy (strip (group 2 m)) = false ->
          result o = inl (ExportException ERROR_MOUNT)).
Proof.
  intros w volume name o polls m. subst o polls m.
  unfold _mount_volume, poll_round, info_command, mount_command, no_match,
    expected_info, expected_mount, preferred_device_pattern,
    lookup_error_pattern, mounted_pattern, already_mounted_pattern.
  set (info := "udisksctl info --block-device " ++ device_name volume).
  set (mnt := "udisksctl mount --block-device " ++ name).
  match goal with
  | |- context [_mount_volume_poll _ ?p _] => set (pats := p)
  end.
  match goal with
  | |- context [expect ?p] => set (pats' := p)
  end.
  clearbody info mnt pats pats'.
  unfold spawn, expect, close, sleep, trigger.
  cbn.
  answer env. answer_expect env; answer env.
  2: answer env; answer env; answer_expect env; answer env.
  3: answer env; answer env; answer_expect env; answer env.
  4: answer env.
  all: answer env; answer_expect2 env; answer env.
  all: try match goal with
           | |- context [truthy ?s] => destruct (truthy s) eqn:Et; cbn
           end.
  all: repeat split; intros; try lia; closing.
  all: subst; cbn in *; closing.
Qed.

End Mount.

Lemma mount_volume_protocol_witness :
  (let o := run (scripted (ready_at 4 0 ["/media/user/USB" ++ cr ++ nl]))
                (_mount_volume sample_volume "/dev/mapper/luks-1234") 0 in
   result o = inr {| mv_device_name := "/dev/sda1";
                     unlocked_name := "/dev/mapper/luks-1234";
                     mv_encryption := LUKS;
                     mountpoint := "/media/user/USB" |}
   /\ steps (trace o)
      = [ Spawned "udisksctl info --block-device /dev/sda1"; Expected 1;
          Closed; Slept (QArith_base.Qmake 1%Z 2%positive);
          Spawned "udisksctl info --block-device /dev/sda1"; Expected 0;
          Closed;
          Spawned "udisksctl mount --block-device /dev/mapper/luks-1234";
          Expected 0; Closed ])
  /\ (let o := run (scripted (ready_at 0 1 ["/dev/dm-0"; "/media/user/USB"]))
                   (_mount_volume sample_volume "/dev/mapper/luks-1234") 0 in
      result o = inr {| mv_device_name := "/dev/sda1";
                        unlocked_name := "/dev/dm-0";
                        mv_encryption := LUKS;
                        mountpoint := "/media/user/USB" |})
  /\ (let o := run (scripted (ready_at 0 4 []))
                   (_mount_volume sample_volume "/dev/mapper/luks-1234") 0 in
      result o = inl (ExportException ERROR_MOUNT))
  /\ (let o := run (scripted (ready_at 0 0 [" " ++ cr ++ nl]))
                   (_mount_volume sample_volume "/dev/mapper/luks-1234") 0 in
      result o = inl (ExportException ERROR_MOUNT)).
Proof.
  split; [|split; [|split]].
  - pose proof (@mount_volume_protocol nat
                  (scripted (ready_at 4 0 ["/media/user/USB" ++ cr ++ nl]))
                  0 sample_volume "/dev/mapper/luks-1234") as H.
    cbv zeta in H.
    destruct H as (_ & _ & _ & _ & Hsteps & Hfresh & _).
    split; [exact (Hfresh eq_refl eq_refl) | exact Hsteps].
  - pose proof (@mount_volume_protocol nat
                  (scripted (ready_at 0 1 ["/dev/dm-0"; "/media/user/USB"]))
                  0 sample_volume "/dev/mapper/luks-1234") as H.
    cbv zeta in H.
    destruct H as (_ & _ & _ & _ & _ & _ & Halready & _).
    exact (Halready eq_refl eq_refl).
  - pose proof (@mount_volume_protocol nat (scripted (ready_at 0 4 []))
                  0 sample_volume "/dev/mapper/luks-1234") as H.
    cbv zeta in H.
    destruct H as (_ & _ & _ & _ & _ & _ & _ & Hother & _).
    apply Hother; cbv; discriminate.
  - pose proof (@mount_volume_protocol nat
                  (scripted (ready_at 0 0 [" " ++ cr ++ nl]))
                  0 sample_volume "/dev/mapper/luks-1234") as H.
    cbv zeta in H.
    destruct H as (_ & _ & _ & _ & _ & _ & _ & _ & _ & Hblank & _).
    exact (Hblank eq_refl eq_refl).
Defined.

Example _mount_volume_never_ready :
  let o := run (scripted (ready_at 100 2 []))
               (_mount_volume sample_volume "/dev/mapper/luks-1234") 0 in
  count_spawned (info_command sample_volume) (trace o) = 3
  /\ sleeps (trace o) = repeat (QArith_base.Qmake 1%Z 2%positive) 3
  /\ result o = inl (ExportException ERROR_MOUNT).
Proof. repeat split. Qed.

(** ** Unlocking twice *)

Example unlock_twice_on_udisks :
  let o1 := run udisks (unlock_volume sample_volume "correct") udisks_locked in
  let o2 := run udisks (unlock_volume sample_volume "correct") (final o1) in
  result o1 = inr {| mv_device_name := "/dev/sda1";
                     unlocked_name := "/dev/dm-0";
                     mv_encryption := LUKS;
                     mountpoint := "/media/user/USB" |}
  /\ result o2 = result o1
  /\ final o2 = final o1
  /\ map index (matches (trace o1)) = [0; 0; 0; 0]
  /\ map index (matches (trace o2)) = [0; 1; 0; 1].
Proof. repeat split. Qed.

Section UnlockTwice.

Variable W : Type.
Variable env : forall R : Type, Event R -> W -> R * W.


(** A volume returned by [unlock_volume] keeps the device name and the
    scheme of the volume given, and has a non-empty mountpoint. *)
Lemma unlock_volume_returns (w : W) (volume : Volume) (key : string)
  (mv : MountedVolume) :
  result (run env (unlock_volume volume key) w) = inr mv ->
  mv_device_name mv = device_name volume
  /\ mv_encryption mv = encryption volume
  /\ truthy (mountpoint mv) = true.
Proof.
  unfold unlock_volume.
  set (command := "udisksctl unlock --block-device " ++ device_name volume).
  match goal with
  | |- context [expect ?p ;; _] => set (prompt := p)
  end.
  match goal with
  | |- context [sendline _ ;; m <- expect ?p ;; _] => set (expected := p)
  end.
  clearbody command prompt expected.
  unfold spawn, expect, sendline, close, trigger. cbn.
  answer env. answer_expect env; [|discriminate].
  answer env. answer_expect2 env; answer env; try discriminate.
  all: match goal with
       | |- context [run env (_mount_volume ?v ?nm) ?w1] =>
           destruct (_mount_volume_ends env v nm w1) as [_ Hr];
           destruct (run env (_mount_volume v nm) w1) as [r0 t0 w0']
       end.
  all: cbn in *.
  all: destruct Hr as [(mv' & -> & Hd & He & Ht)| ->]; [|discriminate].
  all: intros H; inversion H; subst mv'; auto.
Qed.


End UnlockTwice.


(** ** Closing a volume *)

Lemma dev_prefix_changes (s : string) : _DEV_PREFIX ++ s <> s.
Proof.
  intros H. apply (f_equal String.length) in H. cbn in H. lia.
Qed.

Section Close.

Variable W : Type.
Variable env : forall R : Type, Event R -> W -> R * W.

(** Every volume that [_get_supported_volume] returns is named by the
    device path, the prefix /dev/ followed by the name [lsblk] gave. *)
Lemma _get_supported_volume_device_name (device : Device) (w : W)
  (v : AnyVolume) :
  result (run env (_get_supported_volume device) w) = inr (Some v) ->
  any_device_name v = _DEV_PREFIX ++ dev_name device.
Proof.
  destruct device as [n r t m f c].
  unfold _get_supported_volume, supported_or_none. cbn.
  destruct (opt_str_eqb f "crypto_LUKS"); cbn.
  all: destruct c as [[|child0 [|child1 rest]]|]; cbn; try discriminate.
  all: try (intros H; inversion H; reflexivity).
  all: destruct (String.eqb (dev_type child0) "crypt"); cbn;
    try discriminate.
  all: try (rewrite run_bind; cbv zeta;
            match goal with
            | |- context [run env (_is_it_veracrypt ?vol) ?w1] =>
                destruct (run env (_is_it_veracrypt vol) w1)
                  as [[e|s] t0 w0]; cbn; [discriminate|]
            end).
  all: destruct (dev_mountpoint child0) as [[|c0 mp]|]; cbn.
  all: try (intros H; inversion H; reflexivity).
  all: try destruct (supported_scheme _); cbn; try discriminate.
  all: try (intros H; inversion H; reflexivity).
  all: rewrite run_bind; cbv zeta.
  all: match goal with
       | |- context [run env (_mount_volume ?vol ?nm) ?w1] =>
           destruct (_mount_volume_ends env vol nm w1) as [_ Hr];
           destruct (run env (_mount_volume vol nm) w1) as [r1 t1 w1']
       end.
  all: cbn in *.
  all: destruct Hr as [(mv & -> & Hd & He & Ht)| ->]; cbn;
    [|discriminate].
  all: intros H; inversion H; subst v; cbn; exact Hd.
Qed.

(** C10: the [Volume] that [_close_volume] returns keeps the scheme of the
    [MountedVolume] and is named /dev/ followed by the whole device name
    of the [MountedVolume].  That name never equals the device name it
    was built from; for a [MountedVolume] whose device name already is a
    /dev/ path, as every one that [_get_supported_volume] returns, the
    returned name starts with /dev//dev/. *)
Theorem close_volume_prefixes_device_name :
  forall (w : W) (mv : MountedVolume) (v : Volume),
    result (run env (_close_volume mv) w) = inr v ->
    encryption v = mv_encryption mv
    /\ device_name v = "/dev/" ++ mv_device_name mv
    /\ device_name v <> mv_device_name mv
    /\ (forall n, mv_device_name mv = "/dev/" ++ n ->
                  device_name v = "/dev//dev/" ++ n)
    /\ (forall device w',
          result (run env (_get_supported_volume device) w')
          = inr (Some (Mounted mv)) ->
          device_name v = "/dev//dev/" ++ dev_name device).
Proof.
  intros w mv v.
  unfold _close_volume, check_call, path_exists, trigger. cbn.
  repeat answer env.
  all: intros H; try discriminate.
  all: inversion H; subst v; clear H; cbn.
  all: repeat split; try (apply dev_prefix_changes).
  all: try (intros n Hn; rewrite Hn; reflexivity).
  all: intros device w' Hs;
    apply _get_supported_volume_device_name in Hs; cbn in Hs;
    rewrite Hs; reflexivity.
Qed.

End Close.

Lemma close_volume_prefixes_device_name_witness :
  result (run (scripted (all_fine [])) (_close_volume sample_mv) 0)
  = inr (mkVolume "/dev//dev/sda1" LUKS)
  /\ device_name (mkVolume "/dev//dev/sda1" LUKS) <> mv_device_name sample_mv.
Proof.
  split; [reflexivity|].
  exact (proj1 (proj2 (proj2
           (@close_volume_prefixes_device_name nat (scripted (all_fine []))
              0 sample_mv (mkVolume "/dev//dev/sda1" LUKS) eq_refl)))).
Defined.

(** * Further properties of the teardown path *)

Section Teardown.

Variable W : Type.
Variable env : forall R : Type, Event R -> W -> R * W.

(** X1: [cleanup] stops at the first step that fails.  When sync does not
    complete, sync is the only command of the call: the temporary
    directory is not removed and the volume is not touched.  When the
    removal does not complete, the commands were sync and rm only, and
    neither the mountpoint nor the mapping was even tested. *)
Theorem cleanup_stops_at_first_failure :
  forall (w : W) (mv : MountedVolume) (tmpdir : string)
         (is_error close_it : bool),
    let o := run env (cleanup mv tmpdir is_error close_it) w in
    (call_failed sync_argv (trace o) = true ->
       steps (trace o) = [Called sync_argv])
    /\ (call_failed (rm_argv tmpdir) (trace o) = true ->
          steps (trace o) = [Called sync_argv; Called (rm_argv tmpdir)]).
Proof.
  intros w mv tmpdir is_error close_it o. subst o.
  unfold cleanup, _remove_temp_directory, _close_volume, check_call,
    path_exists, trigger.
  destruct close_it; cbn.
  all: repeat answer env.
  all: rewrite ?String.eqb_refl; cbn.
  all: split; intros; closing.
Qed.

(** X2: with [should_close_volume] false, [cleanup] runs sync and then rm
    and nothing else: it tests no path and issues no unmount or lock.  It
    returns normally exactly when both commands completed. *)
Theorem cleanup_without_close :
  forall (w : W) (mv : MountedVolume) (tmpdir : string) (is_error : bool),
    let o := run env (cleanup mv tmpdir is_error false) w in
    (steps (trace o) = [Called sync_argv]
     \/ steps (trace o) = [Called sync_argv; Called (rm_argv tmpdir)])
    /\ (result o = inr tt <->
        steps (trace o) = [Called sync_argv; Called (rm_argv tmpdir)]
        /\ any_call_failed (trace o) = false).
Proof.
  intros w mv tmpdir is_error o. subst o.
  unfold cleanup, _remove_temp_directory, check_call, trigger.
  cbn.
  repeat answer env.
  all: repeat split; intros; closing.
Qed.

(** X3: [cleanup] returns normally exactly when every command it ran
    completed.  Otherwise it raises OSError (a command could not be
    started) or an [ExportException] whose status is
    ERROR_EXPORT_CLEANUP, ERROR_UNMOUNT_VOLUME_BUSY or, only when
    [is_error] is true, ERROR_EXPORT. *)
Theorem cleanup_returns_iff_commands_complete :
  forall (w : W) (mv : MountedVolume) (tmpdir : string)
         (is_error close_it : bool),
    let o := run env (cleanup mv tmpdir is_error close_it) w in
    (result o = inr tt <-> any_call_failed (trace o) = false)
    /\ (forall e, result o = inl e ->
          e = OSError
          \/ e = ExportException ERROR_EXPORT_CLEANUP
          \/ e = ExportException ERROR_UNMOUNT_VOLUME_BUSY
          \/ (is_error = true /\ e = ExportException ERROR_EXPORT)).
Proof.
  intros w mv tmpdir is_error close_it o. subst o.
  unfold cleanup, _remove_temp_directory, _close_volume, check_call,
    path_exists, trigger.
  destruct close_it, is_error; cbn.
  all: repeat answer env.
  all: repeat split; intros; closing.
  all: inversion H; subst; auto.
Qed.

(** X4: [_close_volume] unmounts exactly when the mountpoint exists and,
    once past the unmount step, locks exactly when the unlocked device
    node exists; when neither exists it runs no command and returns the
    bare volume.  A lock command that exits non-zero is reported as
    ERROR_EXPORT_CLEANUP. *)
Theorem close_volume_skips_what_is_gone :
  forall (w : W) (mv : MountedVolume),
    let o := run env (_close_volume mv) w in
    (exists b rest, path_answers (trace o) = (mountpoint mv, b) :: rest
                    /\ (b = true <-> In (unmount_argv mv) (calls (trace o))))
    /\ (forall b, path_answers (trace o)
                  = [(mountpoint mv, b); (unlocked_name mv, false)] ->
                  ~ In (lock_argv mv) (calls (trace o)))
    /\ (path_answers (trace o)
        = [(mountpoint mv, false); (unlocked_name mv, false)] ->
          calls (trace o) = []
          /\ result o = inr (mkVolume (_DEV_PREFIX ++ mv_device_name mv)
                                      (mv_encryption mv)))
    /\ (call_nonzero (lock_argv mv) (trace o) = true ->
          result o = inl (ExportException ERROR_EXPORT_CLEANUP)).
Proof.
  intros w mv o. subst o.
  unfold _close_volume, check_call, path_exists, trigger.
  cbn.
  repeat answer env.
  all: rewrite ?String.eqb_refl; cbn.
  all: unfold lock_argv, unmount_argv.
  all: repeat split; try (eexists; eexists; split; [reflexivity|]).
  all: repeat split; intros; closing.
Qed.

(** X5: in [write_data_to_device] the copy is attempted only after mkdir
    completed: when mkdir does not complete, cp is never run, yet sync
    follows at once as the first step of cleanup.  The call returns
    normally exactly when every command it ran completed. *)
Theorem write_data_copies_only_after_mkdir :
  forall (w : W) (device : MountedVolume) (tmpdir target : string),
    let o := run env (write_data_to_device device tmpdir target) w in
    (call_failed (mkdir_argv device target) (trace o) = true ->
       ~ In (cp_argv device tmpdir target) (calls (trace o))
       /\ firstn 2 (calls (trace o)) = [mkdir_argv device target; sync_argv])
    /\ (In (cp_argv device tmpdir target) (calls (trace o)) ->
          firstn 2 (calls (trace o))
          = [mkdir_argv device target; cp_argv device tmpdir target])
    /\ (result o = inr tt <-> any_call_failed (trace o) = false).
Proof.
  intros w device tmpdir target o. subst o.
  unfold write_data_to_device, write_data_to_device_body, cleanup,
    _remove_temp_directory, _close_volume, check_call, path_exists, trigger,
    mkdir_argv, cp_argv.
  set (target_path := os_path_join (mountpoint device) target).
  set (export_data := os_path_join tmpdir "export_data/").
  clearbody target_path export_data.
  cbn.
  answer env.
  all: rewrite ?String.eqb_refl; cbn.
  all: repeat answer env.
  all: rewrite ?String.eqb_refl; cbn.
  all: unfold sync_argv.
  all: repeat split; intros; closing.
Qed.

End Teardown.

Lemma cleanup_stops_at_first_failure_witness :
  (let o := run (scripted sync_fails)
                (cleanup sample_mv "/tmp/sd-export" false true) 0 in
   steps (trace o) = [Called sync_argv])
  /\ (let o := run (scripted rm_fails)
                   (cleanup sample_mv "/tmp/sd-export" false true) 0 in
      steps (trace o)
      = [Called sync_argv; Called (rm_argv "/tmp/sd-export")]).
Proof.
  split.
  - exact (proj1 (@cleanup_stops_at_first_failure nat (scripted sync_fails)
                    0 sample_mv "/tmp/sd-export" false true) eq_refl).
  - exact (proj2 (@cleanup_stops_at_first_failure nat (scripted rm_fails)
                    0 sample_mv "/tmp/sd-export" false true) eq_refl).
Defined.

Lemma cleanup_without_close_witness :
  let o := run (scripted (all_fine []))
               (cleanup sample_mv "/tmp/sd-export" false false) 0 in
  result o = inr tt.
Proof.
  apply (proj2 (@cleanup_without_close nat (scripted (all_fine []))
                  0 sample_mv "/tmp/sd-export" false)).
  split; reflexivity.
Defined.

Lemma cleanup_returns_iff_commands_complete_witness :
  (let o := run (scripted (all_fine []))
                (cleanup sample_mv "/tmp/sd-export" false true) 0 in
   result o = inr tt)
  /\ (let o := run (scripted lock_fails)
                   (cleanup sample_mv "/tmp/sd-export" true true) 0 in
      any_call_failed (trace o) = true
      /\ result o = inl (ExportException ERROR_EXPORT_CLEANUP)).
Proof.
  split.
  - apply (proj1 (@cleanup_returns_iff_commands_complete nat
                    (scripted (all_fine [])) 0 sample_mv "/tmp/sd-export"
                    false true)).
    reflexivity.
  - split; [reflexivity|].
    destruct (proj2 (@cleanup_returns_iff_commands_complete nat
                       (scripted lock_fails) 0 sample_mv "/tmp/sd-export"
                       true true)
                    (ExportException ERROR_EXPORT_CLEANUP) eq_refl)
      as [H|[H|[H|[_ H]]]]; reflexivity.
Defined.

Lemma close_volume_skips_what_is_gone_witness :
  (let o := run (scripted nothing_exists) (_close_volume sample_mv) 0 in
   calls (trace o) = []
   /\ result o = inr (mkVolume "/dev//dev/sda1" LUKS))
  /\ (let o := run (scripted lock_fails) (_close_volume sample_mv) 0 in
      result o = inl (ExportException ERROR_EXPORT_CLEANUP)).
Proof.
  split.
  - exact (proj1 (proj2 (proj2 (@close_volume_skips_what_is_gone nat
             (scripted nothing_exists) 0 sample_mv))) eq_refl).
  - exact (proj2 (proj2 (proj2 (@close_volume_skips_what_is_gone nat
             (scripted lock_fails) 0 sample_mv))) eq_refl).
Defined.

Lemma write_data_copies_only_after_mkdir_witness :
  let o := run (scripted mkdir_fails)
               (write_data_to_device sample_mv "/tmp/sd-export" "sd-export") 0 in
  ~ In (cp_argv sample_mv "/tmp/sd-export" "sd-export") (calls (trace o))
  /\ firstn 2 (calls (trace o))
     = [mkdir_argv sample_mv "sd-export"; sync_argv].
Proof.
  exact (proj1 (@write_data_copies_only_after_mkdir nat (scripted mkdir_fails)
                  0 sample_mv "/tmp/sd-export" "sd-export") eq_refl).
Defined.

(** * Further properties of unlock and mount *)

(** Answers the next [expect] of a run, separating the first three
    entries of the pattern list from the others. *)
Ltac answer_expect3 env :=
  match goal with
  | |- context [env ?R (expect_ev ?p) ?w] =>
      let i := fresh "i" in
      let g := fresh "g" in
      let w' := fresh "w" in
      destruct (env R (expect_ev p) w) as [[i g] w'];
      destruct i as [|[|[|i]]]; cbn
  end.

Section UnlockMount.

Variable W : Type.
Variable env : forall R : Type, Event R -> W -> R * W.

(** [_mount_volume] closes every child it spawns and sends nothing. *)
Lemma _mount_volume_closes_children (w : W) (volume : Volume)
  (name : string) :
  let o := run env (_mount_volume volume name) w in
  closed (trace o) = length (spawned (trace o))
  /\ sent_lines (trace o) = [].
Proof.
  intros o. subst o.
  unfold _mount_volume.
  set (info := "udisksctl info --block-device " ++ device_name volume).
  set (mnt := "udisksctl mount --block-device " ++ name).
  match goal with
  | |- context [_mount_volume_poll _ ?p _] => set (pats := p)
  end.
  match goal with
  | |- context [expect ?p] => set (pats' := p)
  end.
  clearbody info mnt pats pats'.
  unfold spawn, expect, close, sleep, trigger.
  cbn.
  answer env. answer_expect env; answer env.
  2: answer env; answer env; answer_expect env; answer env.
  3: answer env; answer env; answer_expect env; answer env.
  4: answer env.
  all: answer env; answer_expect2 env; answer env.
  all: try match goal with
           | |- context [truthy ?s] => destruct (truthy s) eqn:Et; cbn
           end.
  all: split; reflexivity.
Qed.

(** X6: a pattern that matches without a usable mountpoint is a failure:
    when the mount command answers freshly-mounted or already-mounted but
    the captured mountpoint is empty after stripping, [_mount_volume]
    raises ERROR_MOUNT.  In every run each spawned child is closed and
    nothing is written to a child. *)
Theorem mount_volume_blank_mountpoint :
  forall (w : W) (volume : Volume) (name : string),
    let o := run env (_mount_volume volume name) w in
    let m := last (matches (trace o)) no_match in
    (index m = 0 -> strip (group 1 m) = EmptyString ->
       result o = inl (ExportException ERROR_MOUNT))
    /\ (index m = 1 -> strip (group 2 m) = EmptyString ->
          result o = inl (ExportException ERROR_MOUNT))
    /\ closed (trace o) = length (spawned (trace o))
    /\ sent_lines (trace o) = [].
Proof.
  intros w volume name o m. subst o m.
  unfold _mount_volume, no_match.
  set (info := "udisksctl info --block-device " ++ device_name volume).
  set (mnt := "udisksctl mount --block-device " ++ name).
  match goal with
  | |- context [_mount_volume_poll _ ?p _] => set (pats := p)
  end.
  match goal with
  | |- context [expect ?p] => set (pats' := p)
  end.
  clearbody info mnt pats pats'.
  unfold spawn, expect, close, sleep, trigger.
  cbn.
  answer env. answer_expect env; answer env.
  2: answer env; answer env; answer_expect env; answer env.
  3: answer env; answer env; answer_expect env; answer env.
  4: answer env.
  all: answer env; answer_expect2 env; answer env.
  all: try match goal with
           | |- context [truthy ?s] => destruct s eqn:Es; cbn
           end.
  all: repeat split; intros; closing.
Qed.

(** X7: how [unlock_volume] can end.  A volume it returns is a
    [MountedVolume] for the device and scheme of the volume given, with a
    non-empty mountpoint.  An [ExportException] it raises carries
    ERROR_UNLOCK_GENERIC, ERROR_UNLOCK_LUKS or ERROR_MOUNT, never another
    status. *)
Theorem unlock_volume_outcomes :
  forall (w : W) (volume : Volume) (key : string),
    let o := run env (unlock_volume volume key) w in
    (forall mv, result o = inr mv ->
                mv_device_name mv = device_name volume
                /\ mv_encryption mv = encryption volume
                /\ truthy (mountpoint mv) = true)
    /\ (forall s, result o = inl (ExportException s) ->
                  s = ERROR_UNLOCK_GENERIC
                  \/ s = ERROR_UNLOCK_LUKS
                  \/ s = ERROR_MOUNT).
Proof.
  intros w volume key o. subst o.
  split; [intros mv; apply unlock_volume_returns|].
  unfold unlock_volume.
  set (command := "udisksctl unlock --block-device " ++ device_name volume).
  match goal with
  | |- context [expect ?p ;; _] => set (prompt := p)
  end.
  match goal with
  | |- context [sendline _ ;; m <- expect ?p ;; _] => set (expected := p)
  end.
  clearbody command prompt expected.
  unfold spawn, expect, sendline, close, trigger. cbn.
  answer env. answer_expect env.
  2: intros s H; inversion H; auto.
  answer env.
  answer_expect3 env.
  all: answer env.
  3-4: intros s H; inversion H; auto.
  all: match goal with
       | |- context [run env (_mount_volume ?v ?nm) ?w1] =>
           destruct (_mount_volume_ends env v nm w1) as [_ Hr];
           destruct (run env (_mount_volume v nm) w1) as [r0 t0 w0']
       end.
  all: cbn in *.
  all: destruct Hr as [(mv & -> & Hd & He & Ht)| ->].
  all: intros s H; inversion H; auto.
Qed.

(** X8: when unlocking fails, nothing is mounted: if [unlock_volume]
    raises ERROR_UNLOCK_LUKS or ERROR_UNLOCK_GENERIC, the unlock command
    is the only child it spawned. *)
Theorem unlock_failure_never_mounts :
  forall (w : W) (volume : Volume) (key : string),
    let o := run env (unlock_volume volume key) w in
    result o = inl (ExportException ERROR_UNLOCK_LUKS)
    \/ result o = inl (ExportException ERROR_UNLOCK_GENERIC) ->
    spawned (trace o) = [unlock_command volume].
Proof.
  intros w volume key o. subst o.
  unfold unlock_volume, unlock_command.
  set (command := "udisksctl unlock --block-device " ++ device_name volume).
  match goal with
  | |- context [expect ?p ;; _] => set (prompt := p)
  end.
  match goal with
  | |- context [sendline _ ;; m <- expect ?p ;; _] => set (expected := p)
  end.
  clearbody command prompt expected.
  unfold spawn, expect, sendline, close, trigger. cbn.
  answer env. answer_expect env; [|auto].
  answer env. answer_expect2 env; answer env; auto.
  all: match goal with
       | |- context [run env (_mount_volume ?v ?nm) ?w1] =>
           destruct (_mount_volume_ends env v nm w1) as [_ Hr];
           destruct (run env (_mount_volume v nm) w1) as [r0 t0 w0']
       end.
  all: cbn in *.
  all: destruct Hr as [(mv & -> & Hd & He & Ht)| ->].
  all: intros [H|H]; discriminate.
Qed.

(** X9: the passphrase is written to the unlock child once, and only
    after the prompt.  Without the prompt nothing is sent and the call
    raises straight after the first [expect], leaving the spawned child
    unclosed; with the prompt the passphrase is the only line sent in the
    whole call and every spawned child is closed. *)
Theorem unlock_volume_sends_passphrase_once :
  forall (w : W) (volume : Volume) (key : string),
    let o := run env (unlock_volume volume key) w in
    let m := hd no_match (matches (trace o)) in
    (index m <> 0 ->
       steps (trace o) = [Spawned (unlock_command volume); Expected (index m)]
       /\ sent_lines (trace o) = []
       /\ closed (trace o) = 0)
    /\ (index m = 0 ->
          sent_lines (trace o) = [key]
          /\ closed (trace o) = length (spawned (trace o))).
Proof.
  intros w volume key o m. subst o m.
  unfold unlock_volume, unlock_command, no_match.
  set (command := "udisksctl unlock --block-device " ++ device_name volume).
  match goal with
  | |- context [expect ?p ;; _] => set (prompt := p)
  end.
  match goal with
  | |- context [sendline _ ;; m <- expect ?p ;; _] => set (expected := p)
  end.
  clearbody command prompt expected.
  unfold spawn, expect, sendline, close, trigger. cbn.
  answer env. answer_expect env.
  2: repeat split; intros; closing.
  answer env. answer_expect2 env; answer env.
  3: repeat split; intros; closing.
  all: match goal with
       | |- context [run env (_mount_volume ?v ?nm) ?w1] =>
           destruct (_mount_volume_closes_children w1 v nm) as [Hc Hs];
           destruct (run env (_mount_volume v nm) w1) as [r0 t0 w0']
       end.
  all: cbn in *.
  all: rewrite Hc, Hs.
  all: repeat split; intros; closing.
Qed.

End UnlockMount.

Lemma mount_volume_blank_mountpoint_witness :
  let o := run (scripted (ready_at 0 0 ["  "]))
               (_mount_volume sample_volume "/dev/mapper/luks-1234") 0 in
  result o = inl (ExportException ERROR_MOUNT).
Proof.
  exact (proj1 (@mount_volume_blank_mountpoint nat
                  (scripted (ready_at 0 0 ["  "])) 0 sample_volume
                  "/dev/mapper/luks-1234") eq_refl eq_refl).
Defined.

Lemma unlock_volume_outcomes_witness :
  (let o := run udisks (unlock_volume sample_volume "correct")
                udisks_locked in
   exists mv, result o = inr mv
              /\ mv_device_name mv = device_name sample_volume
              /\ mv_encryption mv = encryption sample_volume
              /\ truthy (mountpoint mv) = true)
  /\ (let o := run (scripted (prompt_then 2 []))
                   (unlock_volume sample_volume "wrong") 0 in
      exists s, result o = inl (ExportException s)
                /\ (s = ERROR_UNLOCK_GENERIC
                    \/ s = ERROR_UNLOCK_LUKS
                    \/ s = ERROR_MOUNT)).
Proof.
  split.
  - eexists. split; [reflexivity|].
    exact (proj1 (@unlock_volume_outcomes Udisks udisks udisks_locked
                    sample_volume "correct") _ eq_refl).
  - eexists. split; [reflexivity|].
    exact (proj2 (@unlock_volume_outcomes nat (scripted (prompt_then 2 []))
                    0 sample_volume "wrong") _ eq_refl).
Defined.

Lemma unlock_failure_never_mounts_witness :
  let o := run (scripted (prompt_then 2 []))
               (unlock_volume sample_volume "wrong") 0 in
  spawned (trace o) = [unlock_command sample_volume].
Proof.
  exact (@unlock_failure_never_mounts nat (scripted (prompt_then 2 []))
           0 sample_volume "wrong" (or_introl eq_refl)).
Defined.

Lemma unlock_volume_sends_passphrase_once_witness :
  (let o := run (scripted (no_prompt 2))
                (unlock_volume sample_volume "hunter2") 0 in
   steps (trace o) = [Spawned (unlock_command sample_volume); Expected 2]
   /\ sent_lines (trace o) = []
   /\ closed (trace o) = 0)
  /\ (let o := run udisks (unlock_volume sample_volume "correct")
                   udisks_locked in
      sent_lines (trace o) = ["correct"]
      /\ closed (trace o) = length (spawned (trace o))).
Proof.
  split.
  - refine (proj1 (@unlock_volume_sends_passphrase_once nat
                     (scripted (no_prompt 2)) 0 sample_volume "hunter2") _).
    cbv. discriminate.
  - exact (proj2 (@unlock_volume_sends_passphrase_once Udisks udisks
                     udisks_locked sample_volume "correct") eq_refl).
Defined.

(** * Further properties of volume selection *)

Section Selection.

Variable W : Type.
Variable env : forall R : Type, Event R -> W -> R * W.

(** A node without children is judged by its signature alone. *)
Lemma _get_supported_volume_childless (device : Device) (w : W) :
  childless device = true ->
  run env (_get_supported_volume device) w
  = mkOutcome (inr (locked_volume device)) [] w.
Proof.
  destruct device as [n r t m f c].
  unfold childless, _get_supported_volume, supported_or_none, locked_volume.
  cbn.
  destruct c as [[|c0 cs]|]; try discriminate; intros _.
  all: destruct (opt_str_eqb f "crypto_LUKS"); reflexivity.
Qed.

(** X10: a node without children (a locked or plain partition, or a whole
    disk) is judged by its filesystem signature alone, without running
    any command: with the LUKS signature it is the LUKS volume
    /dev/<name>, otherwise it is no volume at all. *)
Theorem childless_node_is_judged_by_signature :
  forall (device : Device) (w : W),
    childless device = true ->
    let o := run env (_get_supported_volume device) w in
    trace o = []
    /\ (dev_fstype device = Some "crypto_LUKS" ->
          result o
          = inr (Some (Bare (mkVolume ("/dev/" ++ dev_name device) LUKS))))
    /\ (dev_fstype device <> Some "crypto_LUKS" -> result o = inr None).
Proof.
  intros device w Hc o. subst o.
  rewrite (_get_supported_volume_childless device w Hc). cbn.
  unfold locked_volume.
  destruct (dev_fstype device) as [s|]; cbn.
  - destruct (String.eqb_spec s "crypto_LUKS") as [->|Hne].
    + repeat split; auto. congruence.
    + repeat split; auto. intros H. inversion H. congruence.
  - repeat split; auto. discriminate.
Qed.

(** X11: a node with more than one child, or whose only child is not of
    type crypt, is no volume, whatever its own signature says; no command
    is run to find that out. *)
Theorem unsupported_layout_is_rejected :
  forall (device : Device) (w : W),
    (exists c1 c2 rest, dev_children device = Some (c1 :: c2 :: rest))
    \/ (exists c, dev_children device = Some [c]
                  /\ String.eqb (dev_type c) "crypt" = false) ->
    let o := run env (_get_supported_volume device) w in
    trace o = [] /\ result o = inr None.
Proof.
  intros device w H o. subst o.
  destruct device as [n r t m f c].
  unfold _get_supported_volume. cbn in *.
  destruct H as [(c1 & c2 & rest & ->)|(c0 & -> & Ht)]; cbn.
  - split; reflexivity.
  - rewrite Ht. cbn. split; reflexivity.
Qed.

(** The first child that [_mount_volume] spawns is the readiness poll. *)
Lemma _mount_volume_first_spawn (volume : Volume) (name : string) (w : W) :
  hd_error (spawned (trace (run env (_mount_volume volume name) w)))
  = Some (info_command volume).
Proof.
  unfold _mount_volume, info_command.
  set (info := "udisksctl info --block-device " ++ device_name volume).
  set (mnt := "udisksctl mount --block-device " ++ name).
  match goal with
  | |- context [_mount_volume_poll _ ?p _] => set (pats := p)
  end.
  match goal with
  | |- context [expect ?p] => set (pats' := p)
  end.
  clearbody info mnt pats pats'.
  unfold spawn, expect, close, sleep, trigger.
  cbn.
  answer env. answer_expect env; answer env.
  2: answer env; answer env; answer_expect env; answer env.
  3: answer env; answer env; answer_expect env; answer env.
  4: answer env.
  all: answer env; answer_expect2 env; answer env.
  all: try match goal with
           | |- context [truthy ?s] => destruct (truthy s) eqn:Et; cbn
           end.
  all: reflexivity.
Qed.

Lemma spawned_app (t1 t2 : Trace) :
  spawned (t1 ++ t2)%list = (spawned t1 ++ spawned t2)%list.
Proof.
  induction t1 as [|[R ev r] t1 IH]; cbn; [reflexivity|].
  destruct ev; cbn; now rewrite IH.
Qed.

(** X12: an unlocked mapping that is not mounted is mounted only when its
    scheme is known.  For a node without the LUKS signature whose single
    crypt child has no mountpoint: when [udisksctl info] exits non-zero or
    prints neither marker, the node is no volume and no child process is
    spawned; when it prints one of the two markers, the readiness poll of
    the mount starts. *)
Theorem unidentified_mapping_is_not_mounted :
  forall (device child : Device) (w : W),
    dev_children device = Some [child] ->
    String.eqb (dev_type child) "crypt" = true ->
    opt_str_eqb (dev_fstype device) "crypto_LUKS" = false ->
    dev_mountpoint child = None \/ dev_mountpoint child = Some EmptyString ->
    let vol := mkVolume ("/dev/" ++ dev_name device) UNKNOWN in
    let a := fst (env (check_output_ev (info_argv vol)) w) in
    let o := run env (_get_supported_volume device) w in
    (a = NonZeroExit -> result o = inr None /\ spawned (trace o) = [])
    /\ (forall out, a = Completed out ->
          contains ("IdType:                     crypto_TCRYPT" ++ nl) out
          = false ->
          contains ("IdType:                     crypto_LUKS" ++ nl) out
          = false ->
          result o = inr None /\ spawned (trace o) = [])
    /\ (forall out, a = Completed out ->
          contains ("IdType:                     crypto_TCRYPT" ++ nl) out
          = true
          \/ contains ("IdType:                     crypto_LUKS" ++ nl) out
             = true ->
          hd_error (spawned (trace o)) = Some (info_command vol)).
Proof.
  intros device child w Hch Hty Hfs Hmp vol a o. subst vol a o.
  destruct device as [n r t m f c]. cbn in Hch, Hfs. subst c.
  destruct child as [cn cr ct cm cf cc]. cbn in Hty, Hmp.
  assert (Hm : forall s name w1,
             hd_error (spawned (trace
               (run env (x <- _mount_volume (mkVolume ("/dev/" ++ n) s) name ;;
                         Ret (Some (Mounted x))) w1)))
             = Some (info_command (mkVolume ("/dev/" ++ n) UNKNOWN))).
  { intros s name w1. rewrite run_bind. cbv zeta.
    pose proof (_mount_volume_first_spawn (mkVolume ("/dev/" ++ n) s)
                  name w1) as Hs.
    destruct (run env (_mount_volume _ name) w1) as [[e|mv] t1 w1'];
      cbn in *; [exact Hs|].
    rewrite spawned_app. cbn. rewrite app_nil_r. exact Hs. }
  unfold _get_supported_volume, _is_it_veracrypt, check_output, trigger,
    info_argv, supported_or_none.
  cbn in *. rewrite Hfs, Hty. cbn.
  destruct Hmp; subst cm.
  all: answer env.
  all: split; [intros H; try discriminate; split; reflexivity|].
  all: split; intros out H; try discriminate.
  all: inversion H; subst a.
  all: try (intros H1 H2; rewrite H1; cbn; rewrite H2; cbn;
            split; reflexivity).
  all: intros [H1|H1]; rewrite ?H1; cbn.
  all: try match goal with
           | |- context [if contains ?x ?y then _ else _] =>
               destruct (contains x y); cbn
           end.
  all: match goal with
       | |- context [run env (bind (_mount_volume ?v ?nm) ?k) ?w1] =>
           specialize (Hm (encryption v) nm w1); cbn in Hm;
           destruct (run env (bind (_mount_volume v nm) k) w1)
             as [r0 t0 wf]
       end.
  all: cbn in *; exact Hm.
Qed.

End Selection.

Lemma childless_node_is_judged_by_signature_witness :
  let o := run (scripted (all_fine []))
               (_get_supported_volume luks_locked_partition) 0 in
  trace o = []
  /\ result o = inr (Some (Bare (mkVolume "/dev/sda1" LUKS))).
Proof.
  pose proof (@childless_node_is_judged_by_signature nat
                (scripted (all_fine [])) luks_locked_partition 0 eq_refl)
    as H.
  cbv zeta in H. destruct H as (Ht & Hl & _).
  split; [exact Ht | exact (Hl eq_refl)].
Defined.

Lemma unsupported_layout_is_rejected_witness :
  let o := run (scripted (all_fine []))
               (_get_supported_volume nested_partition) 0 in
  trace o = [] /\ result o = inr None.
Proof.
  apply (@unsupported_layout_is_rejected nat (scripted (all_fine []))
           nested_partition 0).
  left. do 3 eexists. reflexivity.
Defined.

Lemma unidentified_mapping_is_not_mounted_witness :
  let o := run (scripted one_drive_info_fails)
               (_get_supported_volume unlocked_unmounted_partition) 0 in
  result o = inr None /\ spawned (trace o) = [].
Proof.
  exact (proj1 (@unidentified_mapping_is_not_mounted nat
                  (scripted one_drive_info_fails)
                  unlocked_unmounted_partition
                  (mkDevice "tcrypt-2049" false "crypt" None (Some "vfat") None)
                  0 eq_refl eq_refl eq_refl (or_introl eq_refl))
               eq_refl).
Defined.

(** Opens equations between volumes. *)
Ltac open_volumes :=
  repeat match goal with
         | H : Bare _ = Bare _ |- _ => inversion H; clear H; subst
         | H : Mounted _ = Mounted _ |- _ => inversion H; clear H; subst
         | H : Some _ = Some _ |- _ => inversion H; clear H; subst
         end.

Section Returned.

Variable W : Type.
Variable env : forall R : Type, Event R -> W -> R * W.

(** X13: what [_get_supported_volume] can return.  The volume is named
    /dev/ followed by the name of the node.  A bare (locked) volume is
    always LUKS, and comes from a node that has no children and carries
    the LUKS signature.  A mounted volume has a non-empty mountpoint, and
    its scheme can be other than LUKS or VERACRYPT only when the mapping
    was found mounted already: it is then reported under
    /dev/mapper/<child> at the mountpoint [lsblk] listed. *)
Theorem returned_volume_shapes :
  forall (device : Device) (w : W) (v : AnyVolume),
    result (run env (_get_supported_volume device) w) = inr (Some v) ->
    any_device_name v = "/dev/" ++ dev_name device
    /\ (forall b, v = Bare b ->
          encryption b = LUKS
          /\ dev_fstype device = Some "crypto_LUKS"
          /\ childless device = true)
    /\ (forall mv, v = Mounted mv ->
          truthy (mountpoint mv) = true
          /\ (supported_scheme (mv_encryption mv) = false ->
                exists child,
                  dev_children device = Some [child]
                  /\ dev_mountpoint child = Some (mountpoint mv)
                  /\ unlocked_name mv = "/dev/mapper/" ++ dev_name child)).
Proof.
  intros device w v.
  destruct device as [n r t m f c].
  unfold _get_supported_volume, supported_or_none, childless. cbn.
  destruct f as [s|]; cbn;
    [destruct (String.eqb_spec s "crypto_LUKS") as [->|Hne]|]; cbn.
  all: destruct c as [[|child0 [|child1 rest]]|]; cbn; try discriminate.
  all: try (intros H; inversion H; subst v; cbn;
            repeat split; intros; open_volumes; cbn; closing; fail).
  all: destruct (String.eqb (dev_type child0) "crypt"); cbn;
    try discriminate.
  all: try (rewrite run_bind; cbv zeta;
            match goal with
            | |- context [run env (_is_it_veracrypt ?vol) ?w1] =>
                destruct (run env (_is_it_veracrypt vol) w1)
                  as [[e|sch] t0 w0]; cbn; [discriminate|]
            end).
  all: destruct (dev_mountpoint child0) as [[|c0 mp]|] eqn:Emp; cbn.
  all: try destruct (supported_scheme _) eqn:Esup; cbn; try discriminate.
  all: try (rewrite run_bind; cbv zeta;
            match goal with
            | |- context [run env (_mount_volume ?vol ?nm) ?w1] =>
                destruct (_mount_volume_ends env vol nm w1) as [_ Hr];
                destruct (run env (_mount_volume vol nm) w1) as [r1 t1 w1'];
                cbn in Hr;
                destruct Hr as [(mv' & -> & Hd & He & Ht)| ->]; cbn;
                [|discriminate]
            end).
  all: intros H; inversion H; subst v; cbn.
  all: repeat split; intros; open_volumes; cbn in *; closing.
  all: try congruence.
  all: try (eexists; repeat split; eauto; fail).
  all: rewrite He in *; cbn in *; congruence.
Qed.

End Returned.

Lemma returned_volume_shapes_witness :
  any_device_name (Bare (mkVolume "/dev/sda1" LUKS)) = "/dev/sda1"
  /\ dev_fstype luks_locked_partition = Some "crypto_LUKS".
Proof.
  pose proof (@returned_volume_shapes nat (scripted (all_fine []))
                luks_locked_partition 0 (Bare (mkVolume "/dev/sda1" LUKS))
                eq_refl) as H.
  destruct H as (Hn & Hb & _).
  split; [exact Hn | exact (proj1 (proj2 (Hb _ eq_refl)))].
Defined.

(** * Further properties of [get_volume] *)

Arguments collect : simpl never.
Arguments get_volume_scan : simpl never.

Section GetVolumeFacts.

Variable W : Type.
Variable env : forall R : Type, Event R -> W -> R * W.

Lemma get_volume_scan_cons (targets : list string) (d : Device)
  (ds : list Device) (volumes : list AnyVolume) :
  get_volume_scan targets (d :: ds) volumes =
  if str_in (dev_name d) targets && negb (dev_ro d) then
    volumes' <-
      match dev_children d with
      | Some children => collect _get_supported_volume children volumes
      | None => collect _get_supported_volume [d] volumes
      end ;;
    get_volume_scan targets ds volumes'
  else get_volume_scan targets ds volumes.
Proof. reflexivity. Qed.

Lemma collect_cons (f : Device -> Prog (option AnyVolume)) (x : Device)
  (l : list Device) (volumes : list AnyVolume) :
  collect f (x :: l) volumes =
  item <- f x ;;
  match item with
  | Some v => collect f l (volumes ++ [v])%list
  | None => collect f l volumes
  end.
Proof. reflexivity. Qed.

(** Devices that are not listed by udisks, or are read-only, are passed
    over without a single event. *)
Lemma get_volume_scan_skips (targets : list string) (devices : list Device)
  (volumes : list AnyVolume) (w : W) :
  (forall d, In d devices ->
             str_in (dev_name d) targets && negb (dev_ro d) = false) ->
  run env (get_volume_scan targets devices volumes) w
  = mkOutcome (inr volumes) [] w.
Proof.
  induction devices as [|d ds IH]; intros H; [reflexivity|].
  rewrite get_volume_scan_cons.
  rewrite (H d (or_introl eq_refl)).
  apply IH. intros d' Hd'. apply H. now right.
Qed.

(** Nodes without children are collected by their signature alone. *)
Lemma collect_childless (l : list Device) (volumes : list AnyVolume)
  (w : W) :
  forallb childless l = true ->
  run env (collect _get_supported_volume l volumes) w
  = mkOutcome (inr (volumes ++ locked_volumes l)%list) [] w.
Proof.
  revert volumes. induction l as [|d l IH]; intros volumes H.
  - cbn. now rewrite app_nil_r.
  - cbn in H. apply andb_true_iff in H. destruct H as [Hd Hl].
    rewrite collect_cons, run_bind. cbv zeta.
    rewrite (_get_supported_volume_childless env d w Hd). cbn.
    destruct (locked_volume d) as [v|]; cbn.
    + rewrite (IH _ Hl). cbn. now rewrite <- app_assoc.
    + rewrite (IH _ Hl). reflexivity.
Qed.

(** A run of [try_except p h] is the run of [p], followed by the run of
    the handler when [p] raises an exception that [h] answers. *)
Lemma run_try_except (A : Type) (p : Prog A) (h : Exn -> option (Prog A))
  (w : W) :
  run env (try_except p h) w =
  let o1 := run env p w in
  match result o1 with
  | inr a => o1
  | inl e =>
      match h e with
      | Some q =>
          let o2 := run env q (final o1) in
          mkOutcome (result o2) (trace o1 ++ trace o2)%list (final o2)
      | None => o1
      end
  end.
Proof.
  revert w. induction p as [a|e|R ev k IH]; intros w; cbn.
  - reflexivity.
  - destruct (h e) as [q|]; [|reflexivity].
    destruct (run env q w); reflexivity.
  - destruct (env ev w) as [r w']. rewrite IH. cbn.
    destruct (run env (k r) w') as [res t w'']; cbn.
    destruct res as [e|a]; cbn; [|reflexivity].
    destruct (h e) as [q|]; [|reflexivity].
    cbn. destruct (run env q w''); reflexivity.
Qed.

Variable json_loads : string -> option Lsblk.

(** X14: every failure to obtain the device tree is DEVICE_ERROR.  When
    [udisksctl status] exits non-zero, [get_volume] raises DEVICE_ERROR
    at once.  With exactly one device listed, it raises DEVICE_ERROR when
    [lsblk] exits non-zero, when its output is not JSON, and when the
    [blockdevices] entry is missing or empty; nothing but the two queries
    has been run by then. *)
Theorem get_volume_device_error :
  forall (w : W),
    let a1 := fst (env (check_output_ev status_argv) w) in
    let w1 := snd (env (check_output_ev status_argv) w) in
    let a2 := fst (env (check_output_ev lsblk_argv) w1) in
    let o := run env (get_volume json_loads) w in
    (a1 = NonZeroExit ->
       result o = inl (ExportException DEVICE_ERROR) /\ length (trace o) = 1)
    /\ (forall table,
          a1 = Completed table -> length (parse_targets table) = 1 ->
          (a2 = NonZeroExit ->
             result o = inl (ExportException DEVICE_ERROR)
             /\ length (trace o) = 2)
          /\ (forall listing,
                a2 = Completed listing ->
                (json_loads listing = None ->
                   result o = inl (ExportException DEVICE_ERROR)
                   /\ length (trace o) = 2)
                /\ (forall j,
                      json_loads listing = Some j ->
                      blockdevices j = None \/ blockdevices j = Some [] ->
                      result o = inl (ExportException DEVICE_ERROR)
                      /\ length (trace o) = 2))).
Proof.
  intros w a1 w1 a2 o. subst a1 w1 a2 o.
  unfold get_volume, check_output, trigger, status_argv, lsblk_argv. cbn.
  destruct (env (check_output_ev _) w) as [a1 w1]; cbn.
  destruct a1 as [table| |]; cbn.
  2-3: split; [intros; try discriminate; auto|intros; discriminate].
  split; [intros; discriminate|].
  intros table' H Hlen. inversion H; subst table'; clear H.
  destruct (parse_targets table) as [|t1 [|t2 ts]]; try discriminate.
  cbn.
  destruct (env (check_output_ev _) w1) as [a2 w2]; cbn.
  destruct a2 as [listing| |]; cbn.
  2-3: split; [intros; try discriminate; auto|intros; discriminate].
  split; [intros; discriminate|].
  intros listing' H. inversion H; subst listing'; clear H.
  destruct (json_loads listing) as [j|]; cbn.
  - split; [intros; discriminate|].
    intros j' H Hb. inversion H; subst j'; clear H.
    destruct Hb as [-> | ->]; cbn; auto.
  - split; [auto|intros; discriminate].
Qed.

(** X15: block devices that udisks did not list, and read-only ones, are
    never inspected.  When no device of the tree is both listed and
    writable, [get_volume] raises INVALID_DEVICE_DETECTED having run the
    two queries and nothing else. *)
Theorem get_volume_ignores_unlisted_and_read_only :
  forall (w : W) (table listing : string) (j : Lsblk) (d : Device)
         (ds : list Device),
    let w1 := snd (env (check_output_ev status_argv) w) in
    fst (env (check_output_ev status_argv) w) = Completed table ->
    length (parse_targets table) = 1 ->
    fst (env (check_output_ev lsblk_argv) w1) = Completed listing ->
    json_loads listing = Some j ->
    blockdevices j = Some (d :: ds) ->
    (forall d', In d' (d :: ds) ->
                str_in (dev_name d') (parse_targets table)
                && negb (dev_ro d') = false) ->
    let o := run env (get_volume json_loads) w in
    result o = inl (ExportException INVALID_DEVICE_DETECTED)
    /\ length (trace o) = 2.
Proof.
  intros w table listing j d ds w1 H1 Hlen H2 Hj Hb Hskip o. subst w1 o.
  unfold get_volume, check_output, trigger, status_argv, lsblk_argv in *.
  cbn.
  destruct (env (check_output_ev _) w) as [a1 w1]; cbn in *. subst a1. cbn.
  destruct (parse_targets table) as [|t1 [|t2 ts]] eqn:Et; try discriminate.
  cbn.
  destruct (env (check_output_ev _) w1) as [a2 w2]; cbn in *. subst a2. cbn.
  rewrite Hj, Hb.
  match goal with
  | |- context [run env (try_except (bind ?p ?k) ?h) w2] =>
      change p with (get_volume_scan [t1] (d :: ds) []);
      rewrite (run_try_except (bind (get_volume_scan [t1] (d :: ds) []) k)
                              h w2)
  end.
  cbv zeta. rewrite run_bind. cbv zeta.
  rewrite (get_volume_scan_skips [t1] (d :: ds) [] w2 Hskip). cbn.
  split; reflexivity.
Qed.

(** X16: a drive whose candidate nodes (its partitions, or the drive
    itself when it has none) all lack children is settled by the
    signatures alone: [get_volume] returns the LUKS node when exactly one
    candidate carries the LUKS signature and raises
    INVALID_DEVICE_DETECTED when none or several do, after the two
    queries and nothing else. *)
Theorem get_volume_locked_candidates :
  forall (w : W) (table listing : string) (j : Lsblk) (d : Device),
    let w1 := snd (env (check_output_ev status_argv) w) in
    fst (env (check_output_ev status_argv) w) = Completed table ->
    parse_targets table = [dev_name d] ->
    fst (env (check_output_ev lsblk_argv) w1) = Completed listing ->
    json_loads listing = Some j ->
    blockdevices j = Some [d] ->
    dev_ro d = false ->
    forallb childless (candidates d) = true ->
    let o := run env (get_volume json_loads) w in
    length (trace o) = 2
    /\ (forall v, locked_volumes (candidates d) = [v] -> result o = inr v)
    /\ (length (locked_volumes (candidates d)) <> 1 ->
          result o = inl (ExportException INVALID_DEVICE_DETECTED)).
Proof.
  intros w table listing j d w1 H1 Ht H2 Hj Hb Hro Hc o. subst w1 o.
  assert (Hscan : forall w2,
             run env (get_volume_scan [dev_name d] [d] []) w2
             = mkOutcome (inr (locked_volumes (candidates d))) [] w2).
  { intros w2. rewrite get_volume_scan_cons.
    unfold str_in. cbn [existsb]. rewrite String.eqb_refl, Hro.
    cbn [orb andb negb]. rewrite run_bind. cbv zeta.
    unfold candidates in *. destruct (dev_children d) as [children|].
    - rewrite (collect_childless children [] w2 Hc). reflexivity.
    - rewrite (collect_childless [d] [] w2 Hc). reflexivity. }
  unfold get_volume, check_output, trigger, status_argv, lsblk_argv in *.
  cbn.
  destruct (env (check_output_ev _) w) as [a1 w1]; cbn in *. subst a1. cbn.
  rewrite Ht. cbn.
  destruct (env (check_output_ev _) w1) as [a2 w2]; cbn in *. subst a2. cbn.
  rewrite Hj, Hb.
  rewrite run_try_except. cbv zeta. rewrite run_bind. cbv zeta.
  rewrite Hscan. cbn.
  destruct (locked_volumes (candidates d)) as [|v [|v' vs]]; cbn.
  all: repeat split; intros; closing; cbn in *; congruence.
Qed.

End GetVolumeFacts.

Lemma get_volume_device_error_witness :
  (let o := run (scripted (status_and_lsblk NonZeroExit NonZeroExit))
                (get_volume (fun _ => None)) 0 in
   result o = inl (ExportException DEVICE_ERROR) /\ length (trace o) = 1)
  /\ (let o := run (scripted (status_and_lsblk (Completed status_one_drive)
                                               (Completed "not json")))
                   (get_volume (fun _ => None)) 0 in
      result o = inl (ExportException DEVICE_ERROR) /\ length (trace o) = 2).
Proof.
  split.
  - exact (proj1 (@get_volume_device_error nat
                    (scripted (status_and_lsblk NonZeroExit NonZeroExit))
                    (fun _ => None) 0) eq_refl).
  - exact (proj1 (proj2 (proj2 (@get_volume_device_error nat
                    (scripted (status_and_lsblk (Completed status_one_drive)
                                                (Completed "not json")))
                    (fun _ => None) 0) status_one_drive eq_refl eq_refl)
                  "not json" eq_refl) eq_refl).
Defined.

Lemma get_volume_ignores_unlisted_and_read_only_witness :
  let o := run (scripted (status_and_lsblk (Completed status_one_drive)
                                           (Completed "{ }")))
               (get_volume (fun _ => Some tree_read_only)) 0 in
  result o = inl (ExportException INVALID_DEVICE_DETECTED)
  /\ length (trace o) = 2.
Proof.
  refine (@get_volume_ignores_unlisted_and_read_only nat
            (scripted (status_and_lsblk (Completed status_one_drive)
                                        (Completed "{ }")))
            (fun _ => Some tree_read_only) 0 status_one_drive "{ }"
            tree_read_only _ _ eq_refl eq_refl eq_refl eq_refl eq_refl _).
  intros d' [<-|[]]. reflexivity.
Defined.

Lemma get_volume_locked_candidates_witness :
  (let o := run (scripted (status_and_lsblk (Completed status_one_drive)
                                            (Completed "{ }")))
                (get_volume (fun _ => Some tree_one_luks)) 0 in
   result o = inr (Bare (mkVolume "/dev/sda2" LUKS)))
  /\ (let o := run (scripted (status_and_lsblk (Completed status_one_drive)
                                               (Completed "{ }")))
                   (get_volume (fun _ => Some tree_two_luks)) 0 in
      result o = inl (ExportException INVALID_DEVICE_DETECTED)).
Proof.
  split.
  - refine (proj1 (proj2 (@get_volume_locked_candidates nat
              (scripted (status_and_lsblk (Completed status_one_drive)
                                          (Completed "{ }")))
              (fun _ => Some tree_one_luks) 0 status_one_drive "{ }"
              tree_one_luks
              (nth 0 (match blockdevices tree_one_luks with
                      | Some l => l
                      | None => []
                      end) luks_locked_partition)
              eq_refl eq_refl eq_refl eq_refl eq_refl
              eq_refl eq_refl)) _ eq_refl).
  - refine (proj2 (proj2 (@get_volume_locked_candidates nat
              (scripted (status_and_lsblk (Completed status_one_drive)
                                          (Completed "{ }")))
              (fun _ => Some tree_two_luks) 0 status_one_drive "{ }"
              tree_two_luks
              (nth 0 (match blockdevices tree_two_luks with
                      | Some l => l
                      | None => []
                      end) luks_locked_partition)
              eq_refl eq_refl eq_refl eq_refl eq_refl
              eq_refl eq_refl)) _).
    vm_compute. discriminate.
Defined.


(** * The device identifiers read from [udisksctl status] *)

Lemma chars_unfold (a : ascii) (s1 : string) :
  chars (String a s1) =
  if is_space a then Space (String a EmptyString) :: chars s1
  else
    match s1 with
    | EmptyString => [Other a]
    | String b s2 =>
        if is_space2 a b then
          Space (String a (String b EmptyString)) :: chars s2
        else
          match s2 with
          | EmptyString => Other a :: chars s1
          | String c s3 =>
              if is_space3 a b c then
                Space (String a (String b (String c EmptyString)))
                :: chars s3
              else Other a :: chars s1
          end
    end.
Proof. destruct s1 as [|b [|c s3]]; reflexivity. Qed.

(** A string starts with a byte that belongs to no whitespace character,
    or with a whitespace character followed by a shorter string. *)
Lemma chars_cons (a : ascii) (s1 : string) :
  chars (String a s1) = Other a :: chars s1
  \/ exists u r, chars (String a s1) = Space u :: chars r
                 /\ String.length r <= String.length s1.
Proof.
  rewrite chars_unfold.
  destruct (is_space a); [right; exists (String a EmptyString), s1; auto|].
  destruct s1 as [|b s2]; [left; reflexivity|].
  destruct (is_space2 a b).
  { right. do 2 eexists. split; [reflexivity|]. cbn. lia. }
  destruct s2 as [|c s3]; [left; reflexivity|].
  destruct (is_space3 a b c); [|left; reflexivity].
  right. do 2 eexists. split; [reflexivity|]. cbn. lia.
Qed.

(** What starts no whitespace character in a string starts none in a
    prefix of it. *)
Lemma chars_prefix (a : ascii) (h s1 : string) :
  String.prefix h s1 = true ->
  chars (String a s1) = Other a :: chars s1 ->
  chars (String a h) = Other a :: chars h.
Proof.
  intros Hp. rewrite !chars_unfold.
  destruct (is_space a); [discriminate|].
  destruct h as [|b h]; [reflexivity|].
  destruct s1 as [|b' s1]; [discriminate|].
  cbn in Hp. destruct (ascii_dec b b') as [<-|]; [|discriminate].
  destruct (is_space2 a b); [discriminate|].
  destruct h as [|c h]; [reflexivity|].
  destruct s1 as [|c' s1]; [discriminate|].
  cbn in Hp. destruct (ascii_dec c c') as [<-|]; [|discriminate].
  destruct (is_space3 a b c); [discriminate|reflexivity].
Qed.

Lemma prefix_cons (a : ascii) (h s : string) :
  String.prefix h s = true -> String.prefix (String a h) (String a s) = true.
Proof.
  intros H. cbn. destruct (ascii_dec a a) as [_|Hne]; [exact H|congruence].
Qed.

(** Every field is free of whitespace, and the first one is a prefix of
    the string. *)
Lemma fields_chars (n : nat) :
  forall s, String.length s <= n ->
    match fields (chars s) with
    | h :: t => String.prefix h s = true
                /\ has_space h = false
                /\ Forall (fun f => has_space f = false) t
    | [] => False
    end.
Proof.
  induction n as [|n IH]; intros [|a s1] Hlen; cbn in Hlen; try lia.
  1-2: cbn; auto.
  destruct (chars_cons a s1) as [E|(u & r & E & Hr)].
  - rewrite E. cbn [fields].
    specialize (IH s1 ltac:(lia)).
    destruct (fields (chars s1)) as [|h1 t1]; [destruct IH|].
    destruct IH as (Hp & Hh & Ht).
    split; [apply prefix_cons, Hp|]. split; [|exact Ht].
    unfold has_space in Hh |- *. rewrite (@chars_prefix a h1 s1 Hp E). exact Hh.
  - rewrite E. cbn [fields].
    specialize (IH r ltac:(lia)).
    destruct (fields (chars r)) as [|h1 t1]; [destruct IH|].
    destruct IH as (Hp & Hh & Ht).
    repeat split; auto.
Qed.

Lemma split_tokens (s t : string) :
  In t (split s) -> t <> EmptyString /\ has_space t = false.
Proof.
  unfold split. rewrite filter_In. intros [Hin Ht].
  split; [intros ->; discriminate|].
  pose proof (@fields_chars (String.length s) s (Nat.le_refl _)) as H.
  destruct (fields (chars s)) as [|h tl]; [destruct H|].
  destruct H as (_ & Hh & Htl).
  destruct Hin as [<-|Hin]; [exact Hh|].
  rewrite Forall_forall in Htl. apply Htl, Hin.
Qed.

Lemma last_In (A : Type) (l : list A) (d : A) :
  l <> [] -> In (last l d) l.
Proof.
  induction l as [|a l IH]; [congruence|]. intros _.
  destruct l as [|b l]; [now left|].
  right. apply IH. discriminate.
Qed.

(** X17: every device identifier that [get_volume] reads from the table
    of [udisksctl status] is a non-empty word in which no whitespace
    character occurs, be it one of ASCII or one of the others that
    [str.isspace] knows, whatever the command printed. *)
Theorem parse_targets_are_words :
  forall (table t : string),
    In t (parse_targets table) ->
    t <> EmptyString /\ has_space t = false.
Proof.
  intros table t. unfold parse_targets.
  generalize (split_on (ascii_of_nat 10)
                (strip (removeprefix _UDISKS_PREFIX table))).
  intros usbs.
  assert (H : forall acc,
             (forall x, In x acc -> x <> EmptyString /\ has_space x = false) ->
             In t (fold_left
                     (fun targets i =>
                        let item := split (strip i) in
                        if (0 <? length item)%nat
                        then (targets ++ [last item EmptyString])%list
                        else targets) usbs acc) ->
             t <> EmptyString /\ has_space t = false).
  { induction usbs as [|i usbs IH]; intros acc Hacc; cbn.
    - apply Hacc.
    - apply IH. intros x Hx.
      destruct (split (strip i)) as [|h tl] eqn:Es; cbn in Hx.
      + apply Hacc, Hx.
      + apply in_app_or in Hx. destruct Hx as [Hx|[<-|[]]].
        * apply Hacc, Hx.
        * apply (split_tokens (strip i)). rewrite Es.
          change (In (last (h :: tl) EmptyString) (h :: tl)).
          apply last_In. discriminate. }
  apply H. intros x [].
Qed.

Lemma parse_targets_are_words_witness :
  parse_targets status_one_drive_nbsp = ["sda"]
  /\ "sda" <> EmptyString /\ has_space "sda" = false.
Proof.
  split; [reflexivity|].
  apply (@parse_targets_are_words status_one_drive_nbsp "sda").
  vm_compute. now left.
Defined.

Section GetVolumeEnds.

Variable W : Type.
Variable env : forall R : Type, Event R -> W -> R * W.

(** A bare volume from [_get_supported_volume] is LUKS, a mounted one has
    a mountpoint; the only exceptions of the call are ERROR_MOUNT and
    OSError. *)
Lemma _get_supported_volume_ends (device : Device) (w : W) :
  match result (run env (_get_supported_volume device) w) with
  | inr (Some (Bare b)) => encryption b = LUKS
  | inr (Some (Mounted mv)) => truthy (mountpoint mv) = true
  | inr None => True
  | inl e => e = ExportException ERROR_MOUNT \/ e = OSError
  end.
Proof.
  destruct device as [n r t m f c].
  unfold _get_supported_volume, supported_or_none. cbn.
  destruct (opt_str_eqb f "crypto_LUKS"); cbn.
  all: destruct c as [[|child0 [|child1 rest]]|]; cbn; auto.
  all: destruct (String.eqb (dev_type child0) "crypt"); cbn; auto.
  all: try (rewrite run_bind; cbv zeta;
            match goal with
            | |- context [run env (_is_it_veracrypt ?vol) ?w1] =>
                destruct (_is_it_veracrypt_ends env vol w1)
                  as (_ & Hnz & Hz);
                destruct (query_nonzero
                            (trace (run env (_is_it_veracrypt vol) w1)));
                [specialize (Hnz eq_refl) | specialize (Hz eq_refl)];
                destruct (run env (_is_it_veracrypt vol) w1)
                  as [[e|sch] t0 w0]; cbn in *
            end).
  all: try discriminate.
  all: try (destruct Hz as [Hz|[s Hz]]; inversion Hz; subst; auto; fail).
  all: destruct (dev_mountpoint child0) as [[|c0 mp]|]; cbn; auto.
  all: try destruct (supported_scheme _) eqn:Esup; cbn; auto.
  all: rewrite run_bind; cbv zeta.
  all: match goal with
       | |- context [run env (_mount_volume ?vol ?nm) ?w1] =>
           destruct (_mount_volume_ends env vol nm w1) as [_ Hr];
           destruct (run env (_mount_volume vol nm) w1) as [r1 t1 w1']
       end.
  all: cbn in *.
  all: destruct Hr as [(mv & -> & Hd & He & Ht)| ->]; cbn; auto.
Qed.

Variable P : AnyVolume -> Prop.
Variable E : Exn -> Prop.
Hypothesis f_ends :
  forall d w,
    match result (run env (_get_supported_volume d) w) with
    | inr (Some v) => P v
    | inr None => True
    | inl e => E e
    end.

(** What holds of every volume that [_get_supported_volume] returns holds
    of every volume collected, and the exceptions are the same. *)
Lemma collect_ends (l : list Device) :
  forall (volumes : list AnyVolume) (w : W),
    Forall P volumes ->
    match result (run env (collect _get_supported_volume l volumes) w) with
    | inr vs => Forall P vs
    | inl e => E e
    end.
Proof.
  induction l as [|d l IH]; intros volumes w Hv; [exact Hv|].
  rewrite collect_cons, run_bind. cbv zeta.
  pose proof (f_ends d w) as Hd.
  destruct (run env (_get_supported_volume d) w) as [[e|[v|]] t0 w0];
    cbn in *; [exact Hd| |].
  - specialize (IH (volumes ++ [v])%list w0).
    destruct (run env (collect _ l _) w0) as [[e|vs] t1 w1]; cbn in *;
      apply IH, Forall_app; auto.
  - specialize (IH volumes w0 Hv).
    destruct (run env (collect _ l _) w0) as [[e|vs] t1 w1]; cbn in *;
      exact IH.
Qed.

Lemma get_volume_scan_ends (targets : list string) (devices : list Device) :
  forall (volumes : list AnyVolume) (w : W),
    Forall P volumes ->
    match result (run env (get_volume_scan targets devices volumes) w) with
    | inr vs => Forall P vs
    | inl e => E e
    end.
Proof.
  induction devices as [|d ds IH]; intros volumes w Hv; [exact Hv|].
  rewrite get_volume_scan_cons.
  destruct (str_in (dev_name d) targets && negb (dev_ro d));
    [|apply IH, Hv].
  rewrite run_bind. cbv zeta.
  assert (Hc : match result (run env
                   match dev_children d with
                   | Some children =>
                       collect _get_supported_volume children volumes
                   | None => collect _get_supported_volume [d] volumes
                   end w) with
               | inr vs => Forall P vs
               | inl e => E e
               end)
    by (destruct (dev_children d); apply collect_ends, Hv).
  destruct (run env match dev_children d with
                    | Some children => _
                    | None => _
                    end w) as [[e|vs] t0 w0]; cbn in *; [exact Hc|].
  specialize (IH vs w0 Hc).
  destruct (run env (get_volume_scan targets ds vs) w0) as [[e|vs'] t1 w1];
    cbn in *; exact IH.
Qed.

End GetVolumeEnds.

Section GetVolumeResult.

Variable W : Type.
Variable env : forall R : Type, Event R -> W -> R * W.
Variable json_loads : string -> option Lsblk.

(** X18: how [get_volume] can end.  A volume it returns is usable as it
    stands: a bare volume is a LUKS volume, still to be unlocked, and a
    mounted volume has a non-empty mountpoint.  An [ExportException] it
    raises carries NO_DEVICE_DETECTED, MULTI_DEVICE_DETECTED,
    INVALID_DEVICE_DETECTED, DEVICE_ERROR or ERROR_MOUNT, never another
    status.  The [CalledProcessError] of a command and the
    [JSONDecodeError] of [json.loads] never leave the call: both are
    handled inside it. *)
Theorem get_volume_ends :
  forall (w : W),
    let o := run env (get_volume json_loads) w in
    (forall b, result o = inr (Bare b) -> encryption b = LUKS)
    /\ (forall mv, result o = inr (Mounted mv) ->
                   truthy (mountpoint mv) = true)
    /\ (forall s, result o = inl (ExportException s) ->
                  s = NO_DEVICE_DETECTED
                  \/ s = MULTI_DEVICE_DETECTED
                  \/ s = INVALID_DEVICE_DETECTED
                  \/ s = DEVICE_ERROR
                  \/ s = ERROR_MOUNT)
    /\ result o <> inl CalledProcessError
    /\ result o <> inl JSONDecodeError.
Proof.
  intros w o. subst o.
  unfold get_volume, check_output, trigger. cbn.
  destruct (env (check_output_ev _) w) as [[table| |] w1]; cbn.
  2-3: repeat split; intros; closing; auto 7.
  destruct (parse_targets table) as [|t1 [|t2 ts]]; cbn.
  1,3: repeat split; intros; closing; auto 7.
  destruct (env (check_output_ev _) w1) as [[listing| |] w2]; cbn.
  2-3: repeat split; intros; closing; auto 7.
  destruct (json_loads listing) as [j|]; cbn.
  2: repeat split; intros; closing; auto 7.
  destruct (blockdevices j) as [[|d ds]|]; cbn.
  1,3: repeat split; intros; closing; auto 7.
  rewrite run_try_except. cbv zeta. rewrite run_bind. cbv zeta.
  assert (Hf : forall d0 w0,
             match result (run env (_get_supported_volume d0) w0) with
             | inr (Some v) =>
                 match v with
                 | Bare b => encryption b = LUKS
                 | Mounted mv => truthy (mountpoint mv) = true
                 end
             | inr None => True
             | inl e => e = ExportException ERROR_MOUNT \/ e = OSError
             end).
  { intros d0 w0.
    pose proof (_get_supported_volume_ends env d0 w0) as H.
    destruct (result (run env (_get_supported_volume d0) w0))
      as [e|[[b|mv]|]]; exact H. }
  pose proof (@get_volume_scan_ends W env _ _ Hf [t1] (d :: ds) [] w2
                (Forall_nil _)) as Hs.
  cbv beta in Hs.
  destruct (run env (get_volume_scan [t1] (d :: ds) []) w2)
    as [[e|vs] t0 w0]; cbn in *.
  - destruct Hs as [-> | ->]; cbn; repeat split; intros; closing; auto 7.
  - destruct vs as [|v [|v' vs]]; cbn.
    1,3: repeat split; intros; closing; auto 7.
    inversion Hs; subst.
    repeat split; intros; closing.
Qed.

End GetVolumeResult.

Lemma get_volume_ends_witness :
  (let o := run (scripted (status_and_lsblk (Completed status_one_drive)
                                            (Completed "{ }")))
                (get_volume (fun _ => Some tree_one_luks)) 0 in
   exists b, result o = inr (Bare b) /\ encryption b = LUKS)
  /\ (let o := run (scripted (status_and_lsblk (Completed status_one_drive)
                                               NonZeroExit))
                   (get_volume (fun _ => None)) 0 in
      exists s, result o = inl (ExportException s)
                /\ (s = NO_DEVICE_DETECTED
                    \/ s = MULTI_DEVICE_DETECTED
                    \/ s = INVALID_DEVICE_DETECTED
                    \/ s = DEVICE_ERROR
                    \/ s = ERROR_MOUNT)).
Proof.
  split.
  - eexists. split; [reflexivity|].
    exact (proj1 (@get_volume_ends nat
                    (scripted (status_and_lsblk (Completed status_one_drive)
                                                (Completed "{ }")))
                    (fun _ => Some tree_one_luks) 0) _ eq_refl).
  - eexists. split; [reflexivity|].
    exact (proj1 (proj2 (proj2 (@get_volume_ends nat
                    (scripted (status_and_lsblk (Completed status_one_drive)
                                                NonZeroExit))
                    (fun _ => None) 0))) _ eq_refl).
Defined.

(** * Where the export is written *)

Section Target.

Variable W : Type.
Variable env : forall R : Type, Event R -> W -> R * W.

(** X19: the first command of [write_data_to_device] is [mkdir] on
    [os.path.join(device.mountpoint, submission_target_dirname)], and
    when mkdir completes the copy goes to that same path.  The path is
    the directory name unchanged when that name starts with a slash: the
    mountpoint is then left out altogether.  Otherwise it is the
    mountpoint, a slash unless the mountpoint already ends in one, and
    the directory name as it was given. *)
Theorem write_data_target_path :
  forall (w : W) (device : MountedVolume) (tmpdir target : string),
    let o := run env (write_data_to_device device tmpdir target) w in
    let p := os_path_join (mountpoint device) target in
    hd_error (steps (trace o)) = Some (Called ["mkdir"; p])
    /\ (call_failed ["mkdir"; p] (trace o) = false ->
          nth_error (steps (trace o)) 1
          = Some (Called ["cp"; "-r"; os_path_join tmpdir "export_data/"; p]))
    /\ (String.prefix "/" target = true -> p = target)
    /\ (String.prefix "/" target = false ->
          mountpoint device <> EmptyString ->
          p = mountpoint device
              ++ (if endswith_slash (mountpoint device) then EmptyString else "/")
              ++ target).
Proof.
  intros w device tmpdir target o p. subst o p.
  split; [|split; [|split]].
  - unfold write_data_to_device, write_data_to_device_body, cleanup,
      _remove_temp_directory, _close_volume, check_call, path_exists, trigger.
    set (target_path := os_path_join (mountpoint device) target).
    set (export_data := os_path_join tmpdir "export_data/").
    clearbody target_path export_data.
    cbn.
    repeat answer env.
    all: reflexivity.
  - unfold write_data_to_device, write_data_to_device_body, cleanup,
      _remove_temp_directory, _close_volume, check_call, path_exists, trigger.
    set (target_path := os_path_join (mountpoint device) target).
    set (export_data := os_path_join tmpdir "export_data/").
    clearbody target_path export_data.
    cbn.
    answer env.
    all: rewrite ?String.eqb_refl; cbn.
    all: repeat answer env.
    all: rewrite ?String.eqb_refl; cbn.
    all: intros; closing.
  - intros H. unfold os_path_join. now rewrite H.
  - intros H Hm. unfold os_path_join. rewrite H.
    destruct (mountpoint device) as [|c m] eqn:Em; [congruence|].
    rewrite <- Em. destruct (endswith_slash (mountpoint device)); reflexivity.
Qed.

End Target.

Lemma write_data_target_path_witness :
  (let o := run (scripted (all_fine []))
                (write_data_to_device sample_mv "/tmp/sd-export"
                   "/etc/cron.d") 0 in
   firstn 2 (steps (trace o))
   = [ Called ["mkdir"; "/etc/cron.d"];
       Called ["cp"; "-r"; "/tmp/sd-export/export_data/"; "/etc/cron.d"] ])
  /\ os_path_join (mountpoint sample_mv) "../sd-export"
     = "/media/user/USB/../sd-export".
Proof.
  pose proof (@write_data_target_path nat (scripted (all_fine [])) 0
                sample_mv "/tmp/sd-export" "/etc/cron.d") as H.
  pose proof (@write_data_target_path nat (scripted (all_fine [])) 0
                sample_mv "/tmp/sd-export" "../sd-export") as H'.
  cbv zeta in H, H'.
  destruct H as (Hmk & Hcp & Habs & _).
  destruct H' as (_ & _ & _ & Hrel).
  split.
  - specialize (Hcp eq_refl). rewrite (Habs eq_refl) in Hmk, Hcp.
    destruct (steps (trace (run (scripted (all_fine []))
                (write_data_to_device sample_mv "/tmp/sd-export"
                   "/etc/cron.d") 0))) as [|s1 [|s2 l]];
      try discriminate.
    cbn in *. congruence.
  - exact (Hrel eq_refl ltac:(discriminate)).
Defined.
